(** * MultiSplitDecisionTree: a shallow embedding of [_tree.py]

    The development follows the Python module function by function.

    Conventions of the embedding.
    - A Python float is an exact rational ([Q]) in the tree builder and a
      real number ([R]) in the study of the impurity formulas: rounding is
      not modelled. [math.log2] is a parameter of the rational model.
    - A [pd.Series] is its length together with a function from the row
      position to the value; all the series of one fit share the row index of
      [X], so element-wise operations work position by position.
    - A raised exception is an [Err] result; the attributes of the classifier
      and the list and dict objects that the builder mutates live in an
      explicit [world].
    - The decorator [counter] and the calls to [logging] have no effect on the
      values studied here and are left out. *)

From Stdlib Require Import List String Ascii Bool Arith ZArith QArith Qreduction.
From Stdlib Require Import Lia Lqa Permutation Sorted.
From Stdlib Require Import Reals Lra.
Import ListNotations.

Set Implicit Arguments.
Set Warnings "-register-all".
Open Scope string_scope.
Open Scope list_scope.
Open Scope Q_scope.
Open Scope nat_scope.

(* ================================================================= *)
(** ** Python values *)

(** The values that occur in the cells of a table, in labels and in branch
    descriptors. [PNaN] is [np.nan], the missing value. [PFStr pre x] is the
    text of the f-string [f'{pre}{x}'] for a float [x]: [float] applied to
    the characters after the prefix gives [x] back, which is the round trip
    that Python guarantees for [repr] of a float. *)
Inductive pyval : Type :=
| PNone
| PNaN
| PNum (x : Q)
| PStr (s : string)
| PFStr (pre : string) (x : Q)
| PList (l : list pyval).

(** Python's [==]. A list is equal only to a list with equal elements; a
    string or a number is never equal to a list; [nan] is equal to nothing. *)
Fixpoint py_eq (a b : pyval) {struct a} : bool :=
  match a, b with
  | PNone, PNone => true
  | PNum x, PNum y => Qeq_bool x y
  | PStr s, PStr t => String.eqb s t
  | PFStr p x, PFStr q y => String.eqb p q && Qeq_bool x y
  | PList l, PList m =>
      (fix go (l m : list pyval) {struct l} : bool :=
         match l, m with
         | [], [] => true
         | a' :: l', b' :: m' => py_eq a' b' && go l' m'
         | _, _ => false
         end) l m
  | _, _ => false
  end.

(** [pd.isna]: [nan] and [None] are missing. *)
Definition py_isna (v : pyval) : bool :=
  match v with
  | PNaN | PNone => true
  | _ => false
  end.

(** [v in l] for a Python list [l]. *)
Definition py_in (v : pyval) (l : list pyval) : bool :=
  existsb (py_eq v) l.

(** Truth value of a string: the empty string is false. *)
Definition str_truthy (s : string) : bool :=
  match s with
  | EmptyString => false
  | _ => true
  end.

Definition str_in (s : string) (l : list string) : bool :=
  existsb (String.eqb s) l.

(* ================================================================= *)
(** ** Exceptions and results *)

Inductive exn : Type :=
| ValueError (msg : string)
| AssertionError
| KeyError
| IndexError
| TypeError
| RecursionError.

Inductive result (A : Type) : Type :=
| Ok (a : A)
| Err (e : exn).

Arguments Ok {A} a.
Arguments Err {A} e.

Definition rbind {A B} (r : result A) (k : A -> result B) : result B :=
  match r with
  | Ok a => k a
  | Err e => Err e
  end.

Declare Scope res_scope.
Delimit Scope res_scope with res.
Notation "x <- r ;; k" := (rbind r (fun x => k))
  (at level 61, r at next level, right associativity) : res_scope.
Notation "' pat <- r ;; k" := (rbind r (fun x => match x with pat => k end))
  (at level 61, pat pattern, r at next level, right associativity) : res_scope.

(* ================================================================= *)
(** ** Sorting *)

Section Sort.
Variable A : Type.
Variable leb : A -> A -> bool.

(** A stable insertion sort: [sorted] keeps the original order of the
    elements that compare equal. *)
Fixpoint insert_sorted (x : A) (l : list A) : list A :=
  match l with
  | [] => [x]
  | y :: l' => if leb x y then x :: l else y :: insert_sorted x l'
  end.

Fixpoint sort_by (l : list A) : list A :=
  match l with
  | [] => []
  | x :: l' => insert_sorted x (sort_by l')
  end.
End Sort.

Definition is_str (v : pyval) : bool :=
  match v with PStr _ => true | _ => false end.
Definition is_num (v : pyval) : bool :=
  match v with PNum _ => true | _ => false end.

(** [<=] between two values of one kind. *)
Definition py_leb (a b : pyval) : bool :=
  match a, b with
  | PStr s, PStr t => String.leb s t
  | PNum x, PNum y => Qle_bool x y
  | _, _ => false
  end.

(** [sorted(l)] for a list of strings or a list of numbers. Python raises
    [TypeError] when it has to compare a string with a number, [None] or
    [nan]. *)
Definition py_sorted (l : list pyval) : result (list pyval) :=
  match l with
  | [] | [_] => Ok l
  | _ =>
      if forallb is_str l || forallb is_num l
      then Ok (sort_by py_leb l)
      else Err TypeError
  end.

(** [set(l)] followed by [list]: the distinct elements. The order of a set
    is unspecified; every use below sorts the result. *)
Fixpoint py_distinct (l : list pyval) : list pyval :=
  match l with
  | [] => []
  | v :: l' => v :: filter (fun w => negb (py_eq v w)) (py_distinct l')
  end.

(* ================================================================= *)
(** ** Series, masks and tables *)

Record Series (A : Type) : Type := mkSeries {
  s_len : nat;
  s_at : nat -> A
}.

Definition Mask := Series bool.

Definition smap {A B} (f : A -> B) (s : Series A) : Series B :=
  mkSeries (s_len s) (fun i => f (s_at s i)).

Definition szip {A B C} (f : A -> B -> C) (s : Series A) (t : Series B)
  : Series C :=
  mkSeries (s_len s) (fun i => f (s_at s i) (s_at t i)).

(** [a & b], [a | b] on boolean series. *)
Definition mask_and (a b : Mask) : Mask := szip andb a b.
Definition mask_or (a b : Mask) : Mask := szip orb a b.

(** The positions of the index. *)
Definition index {A} (s : Series A) : list nat := seq 0 (s_len s).

(** The selected positions of a mask, in index order. *)
Definition selected (m : Mask) : list nat := filter (s_at m) (index m).

(** [mask.sum()]. *)
Definition msum (m : Mask) : nat := List.length (selected m).

(** [s[mask].tolist()]. *)
Definition sloc {A} (s : Series A) (m : Mask) : list A :=
  map (s_at s) (selected m).

Definition s_isna (s : Series pyval) : Mask := smap py_isna s.
Definition s_notna (s : Series pyval) : Mask := smap (fun v => negb (py_isna v)) s.
Definition s_isin (s : Series pyval) (l : list pyval) : Mask :=
  smap (fun v => py_in v l) s.
Definition s_eq (s : Series pyval) (v : pyval) : Mask :=
  smap (fun w => py_eq w v) s.

(** [s <= t] and [s > t] for a numeric column: a missing value satisfies
    neither. *)
Definition num_le (v : pyval) (t : Q) : bool :=
  match v with PNum x => Qle_bool x t | _ => false end.
Definition num_gt (v : pyval) (t : Q) : bool :=
  match v with PNum x => negb (Qle_bool x t) | _ => false end.
Definition s_le (s : Series pyval) (t : Q) : Mask := smap (fun v => num_le v t) s.
Definition s_gt (s : Series pyval) (t : Q) : Mask := smap (fun v => num_gt v t) s.

(** A [pd.DataFrame]: the columns in order, each with its cells. A cell that
    a column does not have reads as missing. *)
Record DataFrame : Type := mkFrame {
  nrows : nat;
  cols : list (string * list pyval)
}.

Definition columns (X : DataFrame) : list string := map fst (cols X).

Fixpoint assoc {B} (k : string) (l : list (string * B)) : option B :=
  match l with
  | [] => None
  | (k', v) :: l' => if String.eqb k k' then Some v else assoc k l'
  end.

Definition series_of (n : nat) (l : list pyval) : Series pyval :=
  mkSeries n (fun i => nth i l PNaN).

(** [X[feature_name]]. *)
Definition getcol (X : DataFrame) (f : string) : result (Series pyval) :=
  match assoc f (cols X) with
  | Some l => Ok (series_of (nrows X) l)
  | None => Err KeyError
  end.

(** [y], a [pd.Series] of labels. *)
Definition labels_of (l : list pyval) : Series pyval :=
  series_of (List.length l) l.

(** [y.apply(lambda x: True)]. *)
Definition all_true (y : Series pyval) : Mask := smap (fun _ => true) y.

(* ================================================================= *)
(** ** Floating-point arithmetic, idealised *)

(** The operations on floats that the impurity functions use. The builder
    instantiates them with rationals, the study of the formulas with reals. *)
Class FloatOps (F : Type) : Type := {
  f_of_nat : nat -> F;
  f_add : F -> F -> F;
  f_sub : F -> F -> F;
  f_mul : F -> F -> F;
  f_div : F -> F -> F;
  f_log2 : F -> F
}.

Definition QFloat (log2 : Q -> Q) : FloatOps Q := {|
  f_of_nat := fun n => inject_Z (Z.of_nat n);
  f_add := Qplus;
  f_sub := Qminus;
  f_mul := Qmult;
  f_div := Qdiv;
  f_log2 := log2
|}.

Definition Rlog2 (x : R) : R := (ln x / ln 2)%R.

Definition RFloat : FloatOps R := {|
  f_of_nat := INR;
  f_add := Rplus;
  f_sub := Rminus;
  f_mul := Rmult;
  f_div := Rdiv;
  f_log2 := Rlog2
|}.

(* ================================================================= *)
(** ** Impurity *)

Section Impurity.
Context {F : Type} {ops : FloatOps F}.

(** [__entropy]: the loop over the classes, with [m_i] the number of
    selected rows of class [label]. *)
Definition entropy (class_names : list pyval) (y : Series pyval)
           (mask : Mask) : F :=
  let n := msum mask in
  fold_left
    (fun entropy label =>
       let m_i := msum (mask_and mask (s_eq y label)) in
       if Nat.eqb m_i 0 then entropy
       else f_sub entropy
              (f_mul (f_div (f_of_nat m_i) (f_of_nat n))
                     (f_log2 (f_div (f_of_nat m_i) (f_of_nat n)))))
    class_names (f_of_nat 0).

(** [__gini]. *)
Definition gini (class_names : list pyval) (y : Series pyval)
           (mask : Mask) : F :=
  let n := msum mask in
  fold_left
    (fun gini label =>
       let m_i := msum (mask_and mask (s_eq y label)) in
       let p_i := f_div (f_of_nat m_i) (f_of_nat n) in
       f_add gini (f_mul p_i (f_sub (f_of_nat 1) p_i)))
    class_names (f_of_nat 0).
End Impurity.

(** [__distribution]. *)
Definition distribution (class_names : list pyval) (y : Series pyval)
           (mask : Mask) : list nat :=
  map (fun class_name => msum (mask_and mask (s_eq y class_name))) class_names.

(* ================================================================= *)
(** ** The generators of candidate partitions *)

Section Partitions.
Variable A : Type.

(** The body of [categorical_partition] for the collection
    [first :: rest]; the yielded partitions in order. *)
Fixpoint categorical_partition_from (first : A) (rest : list A)
  : list (list (list A)) :=
  match rest with
  | [] => [ [ [first] ] ]
  | second :: rest' =>
      flat_map
        (fun smaller =>
           map (fun n =>
                  firstn n smaller
                    ++ [first :: nth n smaller []]
                    ++ skipn (S n) smaller)
               (seq 0 (List.length smaller))
             ++ [ [first] :: smaller ])
        (categorical_partition_from second rest')
  end.

(** [categorical_partition]: an empty collection fails at
    [collection[0]]. *)
Definition categorical_partition (collection : list A)
  : result (list (list (list A))) :=
  match collection with
  | [] => Err IndexError
  | first :: rest => Ok (categorical_partition_from first rest)
  end.

(** [rank_partition]. *)
Definition rank_partition (collection : list A)
  : list (list A * list A) :=
  map (fun i => (firstn i collection, skipn i collection))
      (seq 1 (List.length collection - 1)).
End Partitions.

(* ================================================================= *)
(** ** The tree and the classifier *)

(** [Node]. [feature_value] is [None] at the root and a list in a child. *)
Inductive Node : Type :=
  mkNode (feature : option string)
         (feature_value : option (list pyval))
         (impurity : Q)
         (samples : nat)
         (distribution : list nat)
         (label : pyval)
         (childs : list Node).

Definition n_feature (n : Node) := let 'mkNode f _ _ _ _ _ _ := n in f.
Definition n_feature_value (n : Node) := let 'mkNode _ v _ _ _ _ _ := n in v.
Definition n_impurity (n : Node) := let 'mkNode _ _ i _ _ _ _ := n in i.
Definition n_samples (n : Node) := let 'mkNode _ _ _ s _ _ _ := n in s.
Definition n_distribution (n : Node) := let 'mkNode _ _ _ _ d _ _ := n in d.
Definition n_label (n : Node) := let 'mkNode _ _ _ _ _ l _ := n in l.
Definition n_childs (n : Node) := let 'mkNode _ _ _ _ _ _ c := n in c.

Inductive criterion_t : Type := Entropy | Gini.

(** The value of a hierarchy entry: one feature or a list of features. *)
Inductive gated : Type :=
| GStr (s : string)
| GList (l : list string).

Definition hierarchy := list (string * gated).

(** The attributes of a [MultiSplitDecisionTreeClassifier]. *)
Record classifier : Type := mkClassifier {
  max_depth : option Z;
  criterion : criterion_t;
  min_samples_split : Z;
  min_samples_leaf : Z;
  min_impurity_decrease : Q;
  max_childs : option Z;
  feature_names : option (list string);
  class_names : option (list pyval);
  cat_feature_names : list (string * list pyval);
  rank_feature_names : list (string * list pyval);
  num_feature_names : list string;
  tree : option Node;
  feature_importances : option (list (string * Q));
  total_samples_num : option nat
}.

(** The classes, as the loops over [self.__class_names] see them once [fit]
    has set the attribute. *)
Definition classes (self : classifier) : list pyval :=
  match class_names self with
  | Some l => l
  | None => []
  end.

(** The truth value of a list or dict, and of an optional argument. *)
Definition nonempty {B} (l : list B) : bool :=
  match l with [] => false | _ => true end.
Definition given {B} (a : option (list B)) : list B :=
  match a with
  | Some l => l
  | None => []
  end.

Definition dict_has {B} (k : string) (d : list (string * B)) : bool :=
  match assoc k d with Some _ => true | None => false end.

Definition Qltb (a b : Q) : bool := negb (Qle_bool b a).

(** What an evaluator returns: [(inf_gain, masks, feature_values)]. *)
Definition evaluation : Type := (Q * list Mask * list (list pyval))%type.

Definition no_split : evaluation := (0%Q, [], []).

(** The update that closes the loop body of every evaluator:
    [if best_inf_gain < inf_gain: ...]. *)
Definition keep_best (best : evaluation) (inf_gain : Q)
           (child_masks : list Mask) (feature_values : list (list pyval))
  : evaluation :=
  let '(best_inf_gain, _, _) := best in
  if Qltb best_inf_gain inf_gain
  then (inf_gain, child_masks, feature_values)
  else best.

(* ================================================================= *)
(** ** The mutable state *)

(** The classifier object together with the list objects
    ([available_feature_names]) and the dict objects ([special_cases])
    that exist; an object is named by its position. *)
Record world : Type := mkWorld {
  w_self : classifier;
  w_lists : list (list string);
  w_dicts : list hierarchy
}.

(** A computation that reads and writes the world and may raise. The world
    after an exception is the world at the point of the [raise]. *)
Definition M (A : Type) : Type := world -> world * result A.

Definition mret {A} (a : A) : M A := fun w => (w, Ok a).
Definition raise {A} (e : exn) : M A := fun w => (w, Err e).
Definition mbind {A B} (m : M A) (k : A -> M B) : M B :=
  fun w => match m w with
           | (w', Ok a) => k a w'
           | (w', Err e) => (w', Err e)
           end.
Definition lift {A} (r : result A) : M A := fun w => (w, r).

Declare Scope m_scope.
Delimit Scope m_scope with M.
Notation "x <- m ;; k" := (mbind m (fun x => k))
  (at level 61, m at next level, right associativity) : m_scope.
Notation "' pat <- m ;; k" := (mbind m (fun x => match x with pat => k end))
  (at level 61, pat pattern, m at next level, right associativity) : m_scope.
Notation "m ;;; k" := (mbind m (fun _ => k))
  (at level 61, right associativity) : m_scope.

Definition get_self : M classifier := fun w => (w, Ok (w_self w)).
Definition put_self (s : classifier) : M unit :=
  fun w => (mkWorld s (w_lists w) (w_dicts w), Ok tt).

(** A new list object with the given elements: [list(...)], [l.copy()]. *)
Definition new_list (l : list string) : M nat :=
  fun w => (mkWorld (w_self w) (w_lists w ++ [l]) (w_dicts w),
            Ok (List.length (w_lists w))).
Definition read_list (r : nat) : M (list string) :=
  fun w => (w, Ok (nth r (w_lists w) [])).

Fixpoint set_nth {A} (r : nat) (v : A) (l : list A) : list A :=
  match l, r with
  | [], _ => []
  | _ :: l', 0 => v :: l'
  | x :: l', S r' => x :: set_nth r' v l'
  end.

Definition write_list (r : nat) (l : list string) : M unit :=
  fun w => (mkWorld (w_self w) (set_nth r l (w_lists w)) (w_dicts w), Ok tt).

Definition new_dict (d : hierarchy) : M nat :=
  fun w => (mkWorld (w_self w) (w_lists w) (w_dicts w ++ [d]),
            Ok (List.length (w_dicts w))).
Definition read_dict (r : nat) : M hierarchy :=
  fun w => (w, Ok (nth r (w_dicts w) [])).
Definition write_dict (r : nat) (d : hierarchy) : M unit :=
  fun w => (mkWorld (w_self w) (w_lists w) (set_nth r d (w_dicts w)), Ok tt).

(** [l.copy()]. *)
Definition copy_list (r : nat) : M nat :=
  (l <- read_list r ;; new_list l)%M.
(** [l.append(x)] and [l.extend(xs)] mutate the object. *)
Definition list_append (r : nat) (x : string) : M unit :=
  (l <- read_list r ;; write_list r (l ++ [x]))%M.
Definition list_extend (r : nat) (xs : list string) : M unit :=
  (l <- read_list r ;; write_list r (l ++ xs))%M.

(** [l.remove(x)]: the first occurrence, [ValueError] when there is none. *)
Fixpoint remove_first (x : string) (l : list string) : option (list string) :=
  match l with
  | [] => None
  | z :: l' =>
      if String.eqb z x then Some l'
      else option_map (cons z) (remove_first x l')
  end.
Definition list_remove (r : nat) (x : string) : M unit :=
  (l <- read_list r ;;
   match remove_first x l with
   | Some l' => write_list r l'
   | None => raise (ValueError "list.remove(x): x not in list")
   end)%M.

(** [d.copy()] and [d.pop(k)]. *)
Definition copy_dict (r : nat) : M nat :=
  (d <- read_dict r ;; new_dict d)%M.
Definition dict_remove {B} (k : string) (d : list (string * B))
  : list (string * B) :=
  filter (fun kv => negb (String.eqb k (fst kv))) d.
Definition dict_pop (r : nat) (k : string) : M unit :=
  (d <- read_dict r ;; write_dict r (dict_remove k d))%M.

(** The setters of the attributes that [fit] assigns. *)
Definition set_feature_names (v : option (list string)) (s : classifier) :=
  mkClassifier (max_depth s) (criterion s) (min_samples_split s)
    (min_samples_leaf s) (min_impurity_decrease s) (max_childs s)
    v (class_names s) (cat_feature_names s) (rank_feature_names s)
    (num_feature_names s) (tree s) (feature_importances s)
    (total_samples_num s).
Definition set_class_names (v : option (list pyval)) (s : classifier) :=
  mkClassifier (max_depth s) (criterion s) (min_samples_split s)
    (min_samples_leaf s) (min_impurity_decrease s) (max_childs s)
    (feature_names s) v (cat_feature_names s) (rank_feature_names s)
    (num_feature_names s) (tree s) (feature_importances s)
    (total_samples_num s).
Definition set_cat_feature_names (v : list (string * list pyval))
           (s : classifier) :=
  mkClassifier (max_depth s) (criterion s) (min_samples_split s)
    (min_samples_leaf s) (min_impurity_decrease s) (max_childs s)
    (feature_names s) (class_names s) v (rank_feature_names s)
    (num_feature_names s) (tree s) (feature_importances s)
    (total_samples_num s).
Definition set_rank_feature_names (v : list (string * list pyval))
           (s : classifier) :=
  mkClassifier (max_depth s) (criterion s) (min_samples_split s)
    (min_samples_leaf s) (min_impurity_decrease s) (max_childs s)
    (feature_names s) (class_names s) (cat_feature_names s) v
    (num_feature_names s) (tree s) (feature_importances s)
    (total_samples_num s).
Definition set_num_feature_names (v : list string) (s : classifier) :=
  mkClassifier (max_depth s) (criterion s) (min_samples_split s)
    (min_samples_leaf s) (min_impurity_decrease s) (max_childs s)
    (feature_names s) (class_names s) (cat_feature_names s)
    (rank_feature_names s) v (tree s) (feature_importances s)
    (total_samples_num s).
Definition set_tree (v : option Node) (s : classifier) :=
  mkClassifier (max_depth s) (criterion s) (min_samples_split s)
    (min_samples_leaf s) (min_impurity_decrease s) (max_childs s)
    (feature_names s) (class_names s) (cat_feature_names s)
    (rank_feature_names s) (num_feature_names s) v (feature_importances s)
    (total_samples_num s).
Definition set_feature_importances (v : option (list (string * Q)))
           (s : classifier) :=
  mkClassifier (max_depth s) (criterion s) (min_samples_split s)
    (min_samples_leaf s) (min_impurity_decrease s) (max_childs s)
    (feature_names s) (class_names s) (cat_feature_names s)
    (rank_feature_names s) (num_feature_names s) (tree s) v
    (total_samples_num s).
Definition set_total_samples_num (v : option nat) (s : classifier) :=
  mkClassifier (max_depth s) (criterion s) (min_samples_split s)
    (min_samples_leaf s) (min_impurity_decrease s) (max_childs s)
    (feature_names s) (class_names s) (cat_feature_names s)
    (rank_feature_names s) (num_feature_names s) (tree s)
    (feature_importances s) v.

Definition modify_self (f : classifier -> classifier) : M unit :=
  (s <- get_self ;; put_self (f s))%M.

(** [d[k] = v] for a key that the dict has. *)
Fixpoint dict_set {B} (k : string) (v : B) (d : list (string * B))
  : list (string * B) :=
  match d with
  | [] => []
  | (k', v') :: d' =>
      if String.eqb k k' then (k', v) :: d' else (k', v') :: dict_set k v d'
  end.

(** [self.__feature_importances[feature] +=
     (samples_num / self.__total_samples_num) * inf_gain]. *)
Definition add_importance (feature : string) (samples_num : nat)
           (inf_gain : Q) : M unit :=
  (self <- get_self ;;
   match feature_importances self, total_samples_num self with
   | Some d, Some total =>
       match assoc feature d with
       | Some old =>
           put_self
             (set_feature_importances
                (Some (dict_set feature
                         (old + (inject_Z (Z.of_nat samples_num)
                                 / inject_Z (Z.of_nat total)) * inf_gain)%Q
                         d))
                self)
       | None => raise KeyError
       end
   | _, _ => raise TypeError
   end)%M.


Section Builder.
(** [math.log2] on floats. *)
Variable log2 : Q -> Q.

#[local] Existing Instance QFloat.
Let qops : FloatOps Q := QFloat log2.

Section Methods.
(** The methods below read the attributes of [self]. *)
Variable self : classifier.

(** [__impurity]. *)
Definition impurity_of (y : Series pyval) (mask : Mask)
  : Q :=
  match criterion self with
  | Entropy => entropy (ops := qops) (classes self) y mask
  | Gini => gini (ops := qops) (classes self) y mask
  end.

(** [__information_gain]. *)
Definition information_gain (y : Series pyval)
           (parent_mask : Mask) (child_masks : list Mask) : Q :=
  let A := msum parent_mask in
  let second_term :=
    fold_left
      (fun second_term child_mask =>
         let A_i := msum child_mask in
         (second_term
          + (inject_Z (Z.of_nat A_i) / inject_Z (Z.of_nat A))
            * impurity_of y child_mask)%Q)
      child_masks 0%Q in
  (impurity_of y parent_mask - second_term)%Q.

(** [child_mask.sum() < self.__min_samples_leaf]. *)
Definition too_small (m : Mask) : bool :=
  (Z.of_nat (msum m) <? min_samples_leaf self)%Z.

(* --------------------------------------------------------------- *)
(** *** Categorical features *)

(** The child mask of one block of values. *)
Definition cat_child_mask (parent_mask : Mask) (col : Series pyval)
           (list_ : list pyval) : Mask :=
  let mask_na := mask_and parent_mask (s_isna col) in
  mask_and parent_mask (mask_or (s_isin col list_) mask_na).

(** The loop of [__categorical_split]; [None] is the early [return 0, []]. *)
Fixpoint cat_child_masks (parent_mask : Mask)
         (col : Series pyval) (feature_values : list (list pyval))
  : option (list Mask) :=
  match feature_values with
  | [] => Some []
  | list_ :: rest =>
      let child_mask := cat_child_mask parent_mask col list_ in
      if too_small child_mask then None
      else option_map (cons child_mask)
                      (cat_child_masks parent_mask col rest)
  end.

(** [__categorical_split]. *)
Definition categorical_split (X : DataFrame)
           (y : Series pyval) (parent_mask : Mask) (feature_name : string)
           (feature_values : list (list pyval))
  : result (Q * list Mask) :=
  (col <- getcol X feature_name ;;
   match cat_child_masks parent_mask col feature_values with
   | None => Ok (0%Q, [])
   | Some child_masks =>
       Ok (information_gain y parent_mask child_masks, child_masks)
   end)%res.

Definition is_nan (v : pyval) : bool :=
  match v with PNaN => true | _ => false end.

(** [if self.__max_childs: partitions = filter(len <= max_childs)]. *)
Definition limit_childs 
           (partitions : list (list (list pyval)))
  : list (list (list pyval)) :=
  match max_childs self with
  | Some mc =>
      if (mc =? 0)%Z then partitions
      else filter (fun x => (Z.of_nat (List.length x) <=? mc)%Z) partitions
  | None => partitions
  end.

(** The candidate partitions of [__best_categorical_split] for the sorted
    distinct values: all but the first generated one, shortest first. *)
Definition cat_candidates 
           (available_feature_values : list pyval)
  : result (list (list (list pyval))) :=
  (partitions <- categorical_partition available_feature_values ;;
   let partitions := tl partitions in
   let partitions :=
     sort_by (fun a b => Nat.leb (List.length a) (List.length b))
             partitions in
   Ok (limit_childs partitions))%res.

Fixpoint cat_loop (X : DataFrame) (y : Series pyval)
         (parent_mask : Mask) (feature_name : string)
         (partitions : list (list (list pyval))) (best : evaluation)
  : result evaluation :=
  match partitions with
  | [] => Ok best
  | feature_values :: rest =>
      ('(inf_gain, child_masks) <-
         categorical_split X y parent_mask feature_name feature_values ;;
       cat_loop X y parent_mask feature_name rest
                (keep_best best inf_gain child_masks feature_values))%res
  end.

(** The distinct non-missing values of the subset:
    [set(X.loc[parent_mask, feature_name].tolist())] without [nan]. *)
Definition present_values (col : Series pyval) (parent_mask : Mask)
  : list pyval :=
  filter (fun v => negb (is_nan v)) (py_distinct (sloc col parent_mask)).

(** [__best_categorical_split]. *)
Definition best_categorical_split (X : DataFrame)
           (y : Series pyval) (parent_mask : Mask) (feature_name : string)
  : result evaluation :=
  (col <- getcol X feature_name ;;
   let available_feature_values := present_values col parent_mask in
   if Nat.leb (List.length available_feature_values) 1 then Ok no_split
   else
     available_feature_values <- py_sorted available_feature_values ;;
     partitions <- cat_candidates available_feature_values ;;
     cat_loop X y parent_mask feature_name partitions no_split)%res.

(* --------------------------------------------------------------- *)
(** *** Rank features *)

Definition rank_child_masks (parent_mask : Mask) (col : Series pyval)
           (left_list_ right_list_ : list pyval) : list Mask :=
  let mask_na := mask_and parent_mask (s_isna col) in
  let mask_left := mask_and parent_mask (s_isin col left_list_) in
  let mask_right := mask_and parent_mask (s_isin col right_list_) in
  [mask_or mask_left mask_na; mask_or mask_right mask_na].

(** [__rank_split]. *)
Definition rank_split (X : DataFrame)
           (y : Series pyval) (parent_mask : Mask) (feature_name : string)
           (feature_values : list pyval * list pyval)
  : result (Q * list Mask) :=
  let '(left_list_, right_list_) := feature_values in
  (col <- getcol X feature_name ;;
   let child_masks :=
     rank_child_masks parent_mask col left_list_ right_list_ in
   if existsb (too_small) child_masks then Ok (0%Q, [])
   else Ok (information_gain y parent_mask child_masks, child_masks))%res.

Fixpoint rank_loop (X : DataFrame) (y : Series pyval)
         (parent_mask : Mask) (feature_name : string)
         (cuts : list (list pyval * list pyval)) (best : evaluation)
  : result evaluation :=
  match cuts with
  | [] => Ok best
  | feature_values :: rest =>
      ('(inf_gain, child_masks) <-
         rank_split X y parent_mask feature_name feature_values ;;
       rank_loop X y parent_mask feature_name rest
                 (keep_best best inf_gain child_masks
                            [fst feature_values; snd feature_values]))%res
  end.

(** [__best_rank_split]; a feature that is not a key of the dict raises
    [KeyError]. *)
Definition best_rank_split (X : DataFrame)
           (y : Series pyval) (parent_mask : Mask) (feature_name : string)
  : result evaluation :=
  match assoc feature_name (rank_feature_names self) with
  | None => Err KeyError
  | Some available_feature_values =>
      rank_loop X y parent_mask feature_name
                (rank_partition available_feature_values) no_split
  end.

(* --------------------------------------------------------------- *)
(** *** Numerical features *)

(** [(points[i] + points[i+1]) / 2]; only numbers can be averaged. *)
Definition midpoint (a b : pyval) : result Q :=
  match a, b with
  | PNum x, PNum y => Ok ((x + y) / 2)%Q
  | _, _ => Err TypeError
  end.

(** [[(points[i] + points[i+1]) / 2 for i in range(len(points) - 1)]]. *)
Fixpoint midpoints (points : list pyval) : result (list Q) :=
  match points with
  | a :: ((b :: _) as rest) =>
      (t <- midpoint a b ;;
       ts <- midpoints rest ;;
       Ok (t :: ts))%res
  | _ => Ok []
  end.

(** The candidate thresholds of [__numerical_split]. *)
Definition thresholds_of (col : Series pyval) (parent_mask : Mask)
  : result (list Q) :=
  let mask_notna := mask_and parent_mask (s_notna col) in
  (points <- py_sorted (sloc col mask_notna) ;;
   midpoints points)%res.

(** A comparison of the whole column with a float raises [TypeError] when
    a cell holds neither a number nor [nan]. *)
Definition numeric_column (col : Series pyval) : bool :=
  forallb (fun i => match s_at col i with
                    | PNum _ | PNaN => true
                    | _ => false
                    end) (index col).

Definition num_child_masks (parent_mask : Mask) (col : Series pyval)
           (threshold : Q) : list Mask :=
  let mask_na := mask_and parent_mask (s_isna col) in
  let mask_less := mask_and parent_mask (s_le col threshold) in
  let mask_more := mask_and parent_mask (s_gt col threshold) in
  [mask_or mask_less mask_na; mask_or mask_more mask_na].

Definition num_descriptor (threshold : Q) : list (list pyval) :=
  [[PFStr "<= " threshold]; [PFStr "> " threshold]].

Fixpoint num_loop (y : Series pyval)
         (parent_mask : Mask) (col : Series pyval) (thresholds : list Q)
         (best : evaluation) : result evaluation :=
  match thresholds with
  | [] => Ok best
  | threshold :: rest =>
      if numeric_column col then
        let child_masks := num_child_masks parent_mask col threshold in
        if existsb (too_small) child_masks
        then num_loop y parent_mask col rest best
        else
          let inf_gain := information_gain y parent_mask child_masks in
          num_loop y parent_mask col rest
                   (keep_best best inf_gain child_masks
                              (num_descriptor threshold))
      else Err TypeError
  end.

(** [__numerical_split]. *)
Definition numerical_split (X : DataFrame)
           (y : Series pyval) (parent_mask : Mask) (feature_name : string)
  : result evaluation :=
  (col <- getcol X feature_name ;;
   thresholds <- thresholds_of col parent_mask ;;
   num_loop y parent_mask col thresholds no_split)%res.

(* --------------------------------------------------------------- *)
(** *** The split selector *)

(** What [__split] returns:
    [(feature_name, masks, feature_values, inf_gain)]. *)
Definition selection : Type :=
  (option string * list Mask * list (list pyval) * Q)%type.

Definition no_selection : selection := (None, [], [], 0%Q).

(** The dispatch on the kind of a feature. *)
Definition evaluate (X : DataFrame) (y : Series pyval)
           (parent_mask : Mask) (feature_name : string)
  : result evaluation :=
  if dict_has feature_name (cat_feature_names self) then
    best_categorical_split X y parent_mask feature_name
  else if dict_has feature_name (rank_feature_names self) then
    best_rank_split X y parent_mask feature_name
  else if str_in feature_name (num_feature_names self) then
    numerical_split X y parent_mask feature_name
  else Err AssertionError.

Definition select_step (best : selection)
           (feature_name : string) (e : evaluation) : selection :=
  let '(inf_gain, masks, feature_values) := e in
  let '(_, _, _, best_inf_gain) := best in
  if Qle_bool (min_impurity_decrease self) inf_gain
     && Qltb best_inf_gain inf_gain
  then (Some feature_name, masks, feature_values, inf_gain)
  else best.

Fixpoint split_loop (X : DataFrame) (y : Series pyval)
         (parent_mask : Mask) (features : list string) (best : selection)
  : result selection :=
  match features with
  | [] => Ok best
  | feature_name :: rest =>
      (e <- evaluate X y parent_mask feature_name ;;
       split_loop X y parent_mask rest
                  (select_step best feature_name e))%res
  end.

(** [__split]. *)
Definition split (X : DataFrame) (y : Series pyval)
           (parent_mask : Mask) (available_feature_names : list string)
  : result selection :=
  split_loop X y parent_mask available_feature_names no_selection.
End Methods.

(* --------------------------------------------------------------- *)
(** *** The tree builder *)

Definition count_of (v : pyval) (l : list pyval) : nat :=
  List.length (filter (py_eq v) l).

(** [y[parent_mask].value_counts().index[0]]: the most frequent
    non-missing label, the first one met among the most frequent;
    [IndexError] when no label is left. *)
Definition majority (l : list pyval) : result pyval :=
  let vals := filter (fun v => negb (py_isna v)) l in
  match py_distinct vals with
  | [] => Err IndexError
  | v :: rest =>
      Ok (fst (fold_left
                 (fun best w =>
                    if Nat.ltb (snd best) (count_of w vals)
                    then (w, count_of w vals) else best)
                 rest (v, count_of v vals)))
  end.

(** The loop that builds [childs]. *)
Fixpoint for_each {A B} (f : A -> M B) (l : list A) : M (list B) :=
  match l with
  | [] => mret []
  | a :: l' => (b <- f a ;; bs <- for_each f l' ;; mret (b :: bs))%M
  end.

Definition gated_names (g : gated) : list string :=
  match g with
  | GStr s => [s]
  | GList l => l
  end.

(** The block under [# adding the unlocked features]: it returns the
    [special_cases] object that the children receive. *)
Definition unlock (feature : string) (available_feature_names : nat)
           (special_cases : option nat) : M (option nat) :=
  match special_cases with
  | None => mret None
  | Some r =>
      (d <- read_dict r ;;
       if nonempty d then
         r' <- copy_dict r ;;
         d' <- read_dict r' ;;
         match assoc feature d' with
         | Some (GStr s) =>
             list_append available_feature_names s ;;;
             dict_pop r' feature ;;;
             mret (Some r')
         | Some (GList l) =>
             list_extend available_feature_names l ;;;
             dict_pop r' feature ;;;
             mret (Some r')
         | None => mret (Some r')
         end
       else mret (Some r))%M
  end.

(** [not self.__max_depth or depth <= self.__max_depth]. *)
Definition depth_allows (self : classifier) (depth : nat) : bool :=
  match max_depth self with
  | None => true
  | Some md => (md =? 0)%Z || (Z.of_nat depth <=? md)%Z
  end.

Definition feature_truthy (feature : option string) : bool :=
  match feature with
  | Some f => str_truthy f
  | None => false
  end.

(** [__generate_node]. The first argument bounds the depth of the
    recursion, as the interpreter does. *)
Fixpoint generate_node (fuel : nat) (X : DataFrame) (y : Series pyval)
         (parent_mask : Mask) (feature_value : option (list pyval))
         (depth : nat) (available_feature_names : nat)
         (special_cases : option nat) {struct fuel} : M Node :=
  match fuel with
  | 0 => raise RecursionError
  | S fuel' =>
      (self <- get_self ;;
       let impurity := impurity_of self y parent_mask in
       let samples_num := msum parent_mask in
       let distribution := distribution (classes self) y parent_mask in
       label <- lift (majority (sloc y parent_mask)) ;;
       '(feature, childs) <-
         (if (min_samples_split self <=? Z.of_nat samples_num)%Z
             && depth_allows self depth
          then
            names <- read_list available_feature_names ;;
            '(feature, masks, feature_values, inf_gain) <-
              lift (split self X y parent_mask names) ;;
            match feature with
            | Some f =>
                if str_truthy f then
                  available_feature_names <-
                    copy_list available_feature_names ;;
                  add_importance f samples_num inf_gain ;;;
                  special_cases <-
                    unlock f available_feature_names special_cases ;;
                  childs <-
                    for_each
                      (fun '(mask, fv) =>
                         generate_node fuel' X y mask (Some fv) (S depth)
                                       available_feature_names special_cases)
                      (combine masks feature_values) ;;
                  mret (feature, childs)
                else mret (feature, [])
            | None => mret (feature, [])
            end
          else mret (None, [])) ;;
       mret (mkNode feature feature_value impurity samples_num distribution
                    label childs))%M
  end.

(* --------------------------------------------------------------- *)
(** *** Construction and fit *)

(** [_check_init_params], for arguments of the declared types (the tests
    on [isinstance] hold by typing; [criterion] arrives as a string). *)
Definition parse_criterion (c : string) : option criterion_t :=
  if String.eqb c "entropy" then Some Entropy
  else if String.eqb c "gini" then Some Gini
  else None.

Definition check_init_params (criterion : string)
           (min_samples_split min_samples_leaf : Z)
           (min_impurity_decrease : Q) (max_childs : option Z)
  : result criterion_t :=
  match parse_criterion criterion with
  | None => Err (ValueError "criterion")
  | Some c =>
      if (min_samples_split <=? 1)%Z then Err (ValueError "min_samples_split")
      else if (min_samples_leaf <=? 0)%Z
      then Err (ValueError "min_samples_leaf")
      else if Qltb min_impurity_decrease 0
      then Err (ValueError "min_impurity_decrease")
      else if (min_samples_split <? 2 * min_samples_leaf)%Z
      then Err (ValueError "min_samples_split < 2 * min_samples_leaf")
      else match max_childs with
           | Some mc =>
               if (mc <? 2)%Z then Err (ValueError "max_childs") else Ok c
           | None => Ok c
           end
  end.

(** [__init__]. *)
Definition init (max_depth : option Z) (criterion : string)
           (min_samples_split min_samples_leaf : Z)
           (min_impurity_decrease : Q) (max_childs : option Z)
  : result classifier :=
  (c <- check_init_params criterion min_samples_split min_samples_leaf
                          min_impurity_decrease max_childs ;;
   Ok (mkClassifier max_depth c min_samples_split min_samples_leaf
                    min_impurity_decrease max_childs
                    None None [] [] [] None None None))%res.

(** [_check_fit_params], for arguments of the declared types. *)
Definition check_fit_params (X : DataFrame) (y : Series pyval)
           (categorical_feature_names rank_feature_names
              : option (list (string * list pyval)))
           (numerical_feature_names : option (list string))
  : result unit :=
  if negb (Nat.eqb (nrows X) (s_len y))
  then Err (ValueError "X and y must have the same length")
  else if negb (nonempty (given categorical_feature_names)
                || nonempty (given rank_feature_names)
                || nonempty (given numerical_feature_names))
  then Err (ValueError "no feature group is given")
  else
    let declared :=
      map fst (given categorical_feature_names)
        ++ map fst (given rank_feature_names)
        ++ given numerical_feature_names in
    if negb (forallb (fun f => str_in f (columns X)) declared)
    then Err (ValueError "a declared feature is not in the training data")
    else if negb (forallb (fun f => str_in f declared) (columns X))
    then Err (ValueError "a feature of the training data is not declared")
    else Ok tt.

(** [for value in special_cases.values(): ... remove ...]. *)
Fixpoint remove_gated (available_feature_names : nat)
         (values : list gated) : M unit :=
  match values with
  | [] => mret tt
  | GStr s :: rest =>
      (list_remove available_feature_names s ;;;
       remove_gated available_feature_names rest)%M
  | GList l :: rest =>
      ((fix each (l : list string) : M unit :=
          match l with
          | [] => mret tt
          | feature_name :: l' =>
              list_remove available_feature_names feature_name ;;; each l'
          end) l ;;;
       remove_gated available_feature_names rest)%M
  end.

(** [y.unique()]. *)
Definition unique (y : Series pyval) : list pyval :=
  py_distinct (map (s_at y) (index y)).

(** [fit]. The dict that the caller passes as [special_cases] becomes an
    object of the world, so that its mutation, if any, would show. *)
Definition fit (fuel : nat) (X : DataFrame) (y : Series pyval)
           (categorical_feature_names rank_feature_names
              : option (list (string * list pyval)))
           (numerical_feature_names : option (list string))
           (special_cases : option hierarchy) : M unit :=
  (lift (check_fit_params X y categorical_feature_names rank_feature_names
                          numerical_feature_names) ;;;
   modify_self (set_feature_names (Some (columns X))) ;;;
   class_names <- lift (py_sorted (unique y)) ;;
   modify_self (set_class_names (Some class_names)) ;;;
   (if nonempty (given categorical_feature_names)
    then modify_self (set_cat_feature_names (given categorical_feature_names))
    else mret tt) ;;;
   (if nonempty (given rank_feature_names)
    then modify_self (set_rank_feature_names (given rank_feature_names))
    else mret tt) ;;;
   (if nonempty (given numerical_feature_names)
    then modify_self (set_num_feature_names (given numerical_feature_names))
    else mret tt) ;;;
   modify_self (set_total_samples_num (Some (nrows X))) ;;;
   modify_self (set_feature_importances
                  (Some (map (fun f => (f, 0%Q)) (columns X)))) ;;;
   available_feature_names <- new_list (columns X) ;;
   special_cases_obj <-
     match special_cases with
     | None => mret None
     | Some d => r <- new_dict d ;; mret (Some r)
     end ;;
   (if nonempty (given special_cases)
    then remove_gated available_feature_names
                      (map snd (given special_cases))
    else mret tt) ;;;
   node <- generate_node fuel X y (all_true y) None 1
                         available_feature_names special_cases_obj ;;
   modify_self (set_tree (Some node)))%M.

(* --------------------------------------------------------------- *)
(** *** Prediction *)

(** A data point: a [pd.Series] indexed by the feature names. *)
Definition point_t : Type := list (string * pyval).

Definition point_get (point : point_t) (f : string) : result pyval :=
  match assoc f point with
  | Some v => Ok v
  | None => Err KeyError
  end.

(** [assert Y is not None]. *)
Definition not_none (Y : pyval) : result pyval :=
  match Y with
  | PNone => Err AssertionError
  | _ => Ok Y
  end.

(** [float(child.feature_value[0][3:])] for the descriptor that
    [__numerical_split] writes; the text after a three-character prefix is
    the threshold. Other strings do not occur in a fitted tree and are
    read as unparsable. *)
Definition parse_threshold (child : Node) : result Q :=
  match n_feature_value child with
  | None => Err TypeError
  | Some [] => Err IndexError
  | Some (PFStr pre x :: _) =>
      if Nat.eqb (String.length pre) 3 then Ok x
      else Err (ValueError "could not convert string to float")
  | Some (PStr _ :: _) => Err (ValueError "could not convert string to float")
  | Some (_ :: _) => Err TypeError
  end.

(** The branch descriptor of a child, as the value that [==] compares. *)
Definition descriptor (child : Node) : pyval :=
  match n_feature_value child with
  | Some l => PList l
  | None => PNone
  end.

(** The loop [for child in node.childs: if child.feature_value ==
    point[node.feature]: ...; break] with its [else] branch; [go] is the
    recursive call of [__predict]. *)
Definition search_branch (go : Node -> result pyval) (point : point_t)
           (feature : string) (label : pyval)
  : list Node -> result pyval :=
  fix search (cs : list Node) : result pyval :=
    match cs with
    | [] => not_none label
    | child :: cs' =>
        (v <- point_get point feature ;;
         if py_eq (descriptor child) v
         then (Y <- go child ;; not_none Y)
         else search cs')%res
    end.

(** [__predict]. *)
Fixpoint predict_node (self : classifier) (node : Node) (point : point_t)
         {struct node} : result pyval :=
  match node with
  | mkNode None _ _ _ _ label _ => not_none label
  | mkNode (Some feature) _ _ _ _ label childs =>
      if dict_has feature (cat_feature_names self)
         || dict_has feature (rank_feature_names self)
      then
        search_branch (fun child => predict_node self child point)
                      point feature label childs
      else if str_in feature (num_feature_names self)
      then
        match childs with
        | [] => Err IndexError
        | child0 :: rest =>
            (threshold <- parse_threshold child0 ;;
             v <- point_get point feature ;;
             match v with
             | PNum x =>
                 if Qle_bool x threshold
                 then (Y <- predict_node self child0 point ;; not_none Y)
                 else match rest with
                      | child1 :: _ =>
                          (Y <- predict_node self child1 point ;; not_none Y)
                      | [] => Err IndexError
                      end
             | PNaN => Err AssertionError
             | _ => Err TypeError
             end)%res
        end
      else Err AssertionError
  end.

(** [predict] for one point. *)
Definition predict (self : classifier) (point : point_t) : result pyval :=
  match tree self with
  | Some node => predict_node self node point
  | None => Err (ValueError "the classifier is not fitted")
  end.

(** The rows of a table, as [X.iterrows()] yields them. *)
Definition row (X : DataFrame) (i : nat) : point_t :=
  map (fun c => (fst c, nth i (snd c) PNaN)) (cols X).

Fixpoint collect {A} (l : list (result A)) : result (list A) :=
  match l with
  | [] => Ok []
  | r :: l' => (a <- r ;; rest <- collect l' ;; Ok (a :: rest))%res
  end.

(** [predict] for a table. *)
Definition predict_frame (self : classifier) (X : DataFrame)
  : result (list pyval) :=
  collect (map (fun i => predict self (row X i)) (seq 0 (nrows X))).

(** A fresh world around a classifier, and the run of a computation. *)
Definition world_of (self : classifier) : world := mkWorld self [] [].
End Builder.

(* ================================================================= *)
(** ** The tree that a run of the builder describes *)

(** What the block that unlocks features computes, on values: the eligible
    features and the hierarchy that the children of a node split on
    [feature] receive. *)
Definition pure_unlock (feature : string) (available : list string)
           (special_cases : option hierarchy)
  : list string * option hierarchy :=
  match special_cases with
  | None => (available, None)
  | Some d =>
      if nonempty d then
        match assoc feature d with
        | Some g => (available ++ gated_names g, Some (dict_remove feature d))
        | None => (available, Some d)
        end
      else (available, Some d)
  end.

Definition may_split (self : classifier) (mask : Mask) (depth : nat) : bool :=
  (min_samples_split self <=? Z.of_nat (msum mask))%Z && depth_allows self depth.

Section Built.
Variable log2 : Q -> Q.
Variable self : classifier.
Variable X : DataFrame.
Variable y : Series pyval.

Definition node_of (feature : option string) (fv : option (list pyval))
           (mask : Mask) (label : pyval) (childs : list Node) : Node :=
  mkNode feature fv (impurity_of log2 self y mask) (msum mask)
         (distribution (classes self) y mask) label childs.

(** [built mask fv depth available special_cases node]: [node] is the
    tree of the subset [mask] when the eligible features are [available]
    and the remaining hierarchy is [special_cases]. *)
Inductive built : Mask -> option (list pyval) -> nat -> list string ->
                  option hierarchy -> Node -> Prop :=
| built_stop mask fv depth available special_cases label :
    majority (sloc y mask) = Ok label ->
    may_split self mask depth = false ->
    built mask fv depth available special_cases
          (node_of None fv mask label [])
| built_leaf mask fv depth available special_cases label
             feature masks feature_values inf_gain :
    majority (sloc y mask) = Ok label ->
    may_split self mask depth = true ->
    split log2 self X y mask available
      = Ok (feature, masks, feature_values, inf_gain) ->
    feature_truthy feature = false ->
    built mask fv depth available special_cases
          (node_of feature fv mask label [])
| built_split mask fv depth available special_cases label
              f masks feature_values inf_gain childs :
    majority (sloc y mask) = Ok label ->
    may_split self mask depth = true ->
    split log2 self X y mask available
      = Ok (Some f, masks, feature_values, inf_gain) ->
    str_truthy f = true ->
    built_childs (S depth)
                 (fst (pure_unlock f available special_cases))
                 (snd (pure_unlock f available special_cases))
                 (combine masks feature_values) childs ->
    built mask fv depth available special_cases
          (node_of (Some f) fv mask label childs)
with built_childs : nat -> list string -> option hierarchy ->
                    list (Mask * list pyval) -> list Node -> Prop :=
| built_nil depth available special_cases :
    built_childs depth available special_cases [] []
| built_cons depth available special_cases mask fv rest child childs :
    built mask (Some fv) depth available special_cases child ->
    built_childs depth available special_cases rest childs ->
    built_childs depth available special_cases
                 ((mask, fv) :: rest) (child :: childs).
End Built.

Scheme built_mut := Induction for built Sort Prop
  with built_childs_mut := Induction for built_childs Sort Prop.

(** The second world extends the first: the classifier differs at most in
    its importances, and the objects that existed are unchanged. *)
Definition extends (w w' : world) : Prop :=
  (exists v, w_self w' = set_feature_importances v (w_self w))
  /\ (exists l, w_lists w' = w_lists w ++ l)
  /\ (exists d, w_dicts w' = w_dicts w ++ d).

(** The outcome of a computation run in a world satisfies [Q]. *)
Definition wp {A} (m : M A) (w : world) (Q : world -> result A -> Prop)
  : Prop :=
  Q (fst (m w)) (snd (m w)).

(** The removal of the gated features from the eligible ones, on values. *)
Fixpoint remove_all (names : list string) (l : list string)
  : option (list string) :=
  match names with
  | [] => Some l
  | x :: names' =>
      match remove_first x l with
      | Some l' => remove_all names' l'
      | None => None
      end
  end.

(** All the gated features of a hierarchy, in the order of its entries. *)
Definition gated_all (special_cases : option hierarchy) : list string :=
  flat_map gated_names (map snd (given special_cases)).

(** The attributes that [fit] has assigned when it starts to build the
    tree. *)
Definition fitted_attrs (X : DataFrame) (class_names : list pyval)
           (categorical_feature_names rank_feature_names
              : option (list (string * list pyval)))
           (numerical_feature_names : option (list string))
           (s : classifier) : classifier :=
  let s := set_feature_names (Some (columns X)) s in
  let s := set_class_names (Some class_names) s in
  let s := if nonempty (given categorical_feature_names)
           then set_cat_feature_names (given categorical_feature_names) s
           else s in
  let s := if nonempty (given rank_feature_names)
           then set_rank_feature_names (given rank_feature_names) s
           else s in
  let s := if nonempty (given numerical_feature_names)
           then set_num_feature_names (given numerical_feature_names) s
           else s in
  let s := set_total_samples_num (Some (nrows X)) s in
  set_feature_importances (Some (map (fun f => (f, 0%Q)) (columns X))) s.

Definition deref_list (w : world) (r : nat) : list string := nth r (w_lists w) [].
Definition deref_dict (w : world) (r : option nat) : option hierarchy :=
  option_map (fun r => nth r (w_dicts w) []) r.
Definition valid_dict (w : world) (r : option nat) : Prop :=
  forall r', r = Some r' -> r' < List.length (w_dicts w).

Definition gen_post (log2 : Q -> Q) X y mask fv depth ra rs (w : world)
  : world -> result Node -> Prop :=
  fun w' res =>
    extends w w'
    /\ forall node, res = Ok node ->
         built log2 (w_self w) X y mask fv depth (deref_list w ra)
               (deref_dict w rs) node.

Definition gain_of (e : evaluation) : Q := fst (fst e).
Definition masks_of (e : evaluation) : list Mask := snd (fst e).
Definition values_of (e : evaluation) : list (list pyval) := snd e.

(** What [keep_best] preserves: the incumbent is either the initial one or a
    candidate that satisfied [P] and had a positive gain. *)
Definition chosen (P : evaluation -> Prop) (e : evaluation) : Prop :=
  e = no_split \/ ((0 < gain_of e)%Q /\ P e).

Section EvaluatorSpec.
Variable log2 : Q -> Q.
Variable self : classifier.
Variable X : DataFrame.
Variable y : Series pyval.
Variable parent_mask : Mask.

(** The selected candidate of the categorical evaluator. *)
Definition cat_selected (col : Series pyval) (cands : list (list (list pyval)))
           (e : evaluation) : Prop :=
  In (values_of e) cands
  /\ cat_child_masks self parent_mask col (values_of e) = Some (masks_of e)
  /\ gain_of e = information_gain log2 self y parent_mask (masks_of e).

(** The selected cut of the rank evaluator. *)
Definition rank_selected (col : Series pyval)
           (cuts : list (list pyval * list pyval)) (e : evaluation) : Prop :=
  exists l r,
    In (l, r) cuts
    /\ values_of e = [l; r]
    /\ masks_of e = rank_child_masks parent_mask col l r
    /\ existsb (too_small self) (masks_of e) = false
    /\ gain_of e = information_gain log2 self y parent_mask (masks_of e).

(** The selected threshold of the numerical evaluator. *)
Definition num_selected (col : Series pyval) (thresholds : list Q)
           (e : evaluation) : Prop :=
  exists t,
    In t thresholds
    /\ values_of e = num_descriptor t
    /\ masks_of e = num_child_masks parent_mask col t
    /\ existsb (too_small self) (masks_of e) = false
    /\ gain_of e = information_gain log2 self y parent_mask (masks_of e).

(** The state of the loop of [__split] after the features [done]. *)
Definition selected_from (done : list string) (s : selection) : Prop :=
  let '(best_feature_name, best_masks, best_feature_values, best_inf_gain) := s in
  match best_feature_name with
  | None =>
      best_masks = [] /\ best_feature_values = [] /\ best_inf_gain = 0%Q
      /\ forall f e, In f done -> evaluate log2 self X y parent_mask f = Ok e ->
           ~ ((min_impurity_decrease self <= gain_of e)%Q /\ (0 < gain_of e)%Q)
  | Some f =>
      exists earlier later,
        done = earlier ++ f :: later
        /\ evaluate log2 self X y parent_mask f = Ok (best_inf_gain, best_masks, best_feature_values)
        /\ (min_impurity_decrease self <= best_inf_gain)%Q
        /\ (0 < best_inf_gain)%Q
        /\ (forall f' e', In f' earlier -> evaluate log2 self X y parent_mask f' = Ok e' ->
              (gain_of e' < best_inf_gain)%Q)
        /\ (forall f' e', In f' later -> evaluate log2 self X y parent_mask f' = Ok e' ->
              (gain_of e' <= best_inf_gain)%Q)
  end.
End EvaluatorSpec.

(** The outcome of [fit]. *)
Definition fit_post (log2 : Q -> Q) X y cat rank num
           (sc : option hierarchy) (w : world) : world -> result unit -> Prop :=
  fun w' r =>
    match r with
    | Err e =>
        tree (w_self w') = tree (w_self w)
        /\ (forall e', check_fit_params X y cat rank num = Err e' -> w' = w)
    | Ok _ =>
        exists class_names available root v,
          check_fit_params X y cat rank num = Ok tt
          /\ py_sorted (unique y) = Ok class_names
          /\ remove_all (gated_all sc) (columns X) = Some available
          /\ built log2 (fitted_attrs X class_names cat rank num (w_self w))
                   X y (all_true y) None 1 available sc root
          /\ w_self w' =
               set_tree (Some root)
                 (set_feature_importances v
                    (fitted_attrs X class_names cat rank num (w_self w)))
    end.

(** Every node below the root of a tree satisfies [P]. *)
Inductive descendants (P : Node -> Prop) : Node -> Prop :=
| descendants_intro n :
    (forall c, In c (n_childs n) -> P c /\ descendants P c) ->
    descendants P n.

(** A subset with fewer rows than [min_samples_leaf]. *)
Definition large_enough (self : classifier) (m : Mask) : Prop :=
  (min_samples_leaf self <= Z.of_nat (msum m))%Z.

(** Every node of a tree, the root included, satisfies [P]. *)
Inductive every_node (P : Node -> Prop) : Node -> Prop :=
| every_node_intro n :
    P n ->
    (forall c, In c (n_childs n) -> every_node P c) ->
    every_node P n.

(** The kind of a feature, as [__split] and [__predict] dispatch on it. *)
Definition is_branching (self : classifier) (f : string) : bool :=
  dict_has f (cat_feature_names self) || dict_has f (rank_feature_names self).
Definition is_numerical (self : classifier) (f : string) : bool :=
  negb (is_branching self f) && str_in f (num_feature_names self).

(** [routes self point node target]: the traversal of [__predict] for
    [point], started at [node], visits [target]. *)
Inductive routes (self : classifier) (point : point_t) : Node -> Node -> Prop :=
| routes_here node : routes self point node node
| routes_branch node f v before child after target :
    n_feature node = Some f ->
    is_branching self f = true ->
    n_childs node = before ++ child :: after ->
    point_get point f = Ok v ->
    Forall (fun c => py_eq (descriptor c) v = false) before ->
    py_eq (descriptor child) v = true ->
    routes self point child target ->
    routes self point node target
| routes_le node f child0 rest threshold x target :
    n_feature node = Some f ->
    is_numerical self f = true ->
    n_childs node = child0 :: rest ->
    parse_threshold child0 = Ok threshold ->
    point_get point f = Ok (PNum x) ->
    Qle_bool x threshold = true ->
    routes self point child0 target ->
    routes self point node target
| routes_gt node f child0 child1 rest threshold x target :
    n_feature node = Some f ->
    is_numerical self f = true ->
    n_childs node = child0 :: child1 :: rest ->
    parse_threshold child0 = Ok threshold ->
    point_get point f = Ok (PNum x) ->
    Qle_bool x threshold = false ->
    routes self point child1 target ->
    routes self point node target.

(** A node that splits on a numerical feature has two children, the first
    of which carries the threshold. *)
Definition threshold_readable (self : classifier) (n : Node) : Prop :=
  forall f, n_feature n = Some f -> n_childs n <> [] ->
            is_numerical self f = true ->
            exists t c0 c1,
              n_childs n = [c0; c1]
              /\ n_feature_value c0 = Some [PFStr "<= " t]
              /\ n_feature_value c1 = Some [PFStr "> " t].

(** [eligible_chain available special_cases node]: the split feature of
    every node of the tree is one of the eligible features of that node,
    where the children of a node split on [f] are eligible for what
    [pure_unlock f] gives, all of them alike. *)
Inductive eligible_chain : list string -> option hierarchy -> Node -> Prop :=
| eligible_chain_intro available special_cases n :
    (forall f, n_feature n = Some f -> In f available) ->
    (forall c, In c (n_childs n) ->
       exists f,
         n_feature n = Some f
         /\ eligible_chain (fst (pure_unlock f available special_cases))
                           (snd (pure_unlock f available special_cases)) c) ->
    eligible_chain available special_cases n.

(** [gate_respected hierarchy ancestors node]: a node of the tree splits on
    a gated feature only below a node that splits on its gating feature;
    [ancestors] are the split features on the path that leads to [node]. *)
Inductive gate_respected (special_cases : hierarchy)
  : list string -> Node -> Prop :=
| gate_respected_intro ancestors n :
    (forall f gate g,
        n_feature n = Some f -> In (gate, g) special_cases ->
        In f (gated_names g) -> In gate ancestors) ->
    (forall c f, In c (n_childs n) -> n_feature n = Some f ->
                 gate_respected special_cases (f :: ancestors) c) ->
    gate_respected special_cases ancestors n.

(** What a caller can observe of a classifier. *)
Definition observable (s : classifier) :=
  (tree s, feature_names s, class_names s,
   cat_feature_names s, rank_feature_names s, num_feature_names s,
   feature_importances s).

(* ================================================================= *)
(** ** Example data *)

(** The examples use the Gini criterion, which never calls [math.log2]. *)
Definition no_log2 (x : Q) : Q := 0%Q.

(** [MultiSplitDecisionTreeClassifier()] with the default parameters. *)
Definition default_classifier : classifier :=
  mkClassifier None Gini 2 1 0 None None None [] [] [] None None None.

(** One categorical feature with the values x and y. *)
Definition X_category : DataFrame :=
  mkFrame 5 [("F", [PStr "x"; PStr "x"; PStr "x"; PStr "y"; PStr "y"])].
Definition y_category : Series pyval :=
  labels_of [PStr "a"; PStr "a"; PStr "a"; PStr "b"; PStr "b"].

(** One numerical feature with the values 1, 2, 4, 4, 10. *)
Definition X_number : DataFrame :=
  mkFrame 5 [("N", [PNum 1; PNum 2; PNum 4; PNum 4; PNum 10])].
Definition y_number : Series pyval :=
  labels_of [PStr "a"; PStr "a"; PStr "a"; PStr "b"; PStr "b"].

(** A gating feature H and a gated feature G. *)
Definition X_gate : DataFrame :=
  mkFrame 4 [("H", [PNum 1; PNum 1; PNum 2; PNum 2]);
             ("G", [PNum 1; PNum 2; PNum 1; PNum 2])].
Definition y_gate : Series pyval :=
  labels_of [PStr "a"; PStr "b"; PStr "c"; PStr "d"].
Definition gate_H_G : hierarchy := [("H", GStr "G")].

(** A hierarchy that gates a feature which is not a column. *)
Definition X_only_H : DataFrame := mkFrame 2 [("H", [PNum 1; PNum 2])].
Definition y_only_H : Series pyval := labels_of [PStr "a"; PStr "b"].


(* ================================================================= *)
(** ** The state monad *)

Lemma wp_bind {A B} (m : M A) (k : A -> M B) w (Q : world -> result B -> Prop) :
  wp m w (fun w1 r => match r with
                      | Ok a => wp (k a) w1 Q
                      | Err e => Q w1 (Err e)
                      end) ->
  wp (mbind m k) w Q.
Proof.
  unfold wp, mbind. destruct (m w) as [w1 [a | e]]; auto.
Qed.

Lemma wp_weaken {A} (m : M A) w (Q Q' : world -> result A -> Prop) :
  wp m w Q -> (forall w' r, Q w' r -> Q' w' r) -> wp m w Q'.
Proof. unfold wp. auto. Qed.

Lemma extends_refl w : extends w w.
Proof.
  repeat split.
  - exists (feature_importances (w_self w)). destruct (w_self w); reflexivity.
  - exists []. now rewrite app_nil_r.
  - exists []. now rewrite app_nil_r.
Qed.

Lemma extends_trans w1 w2 w3 : extends w1 w2 -> extends w2 w3 -> extends w1 w3.
Proof.
  intros ([v1 H1] & [l1 L1] & [d1 D1]) ([v2 H2] & [l2 L2] & [d2 D2]).
  repeat split.
  - exists v2. rewrite H2, H1. reflexivity.
  - exists (l1 ++ l2). now rewrite L2, L1, app_assoc.
  - exists (d1 ++ d2). now rewrite D2, D1, app_assoc.
Qed.

Lemma extends_list w w' r :
  extends w w' -> r < List.length (w_lists w) ->
  nth r (w_lists w') [] = nth r (w_lists w) [] /\ r < List.length (w_lists w').
Proof.
  intros (_ & [l L] & _) Hr. rewrite L, app_nth1, length_app by assumption.
  split; [reflexivity | lia].
Qed.

Lemma extends_dict w w' r :
  extends w w' -> r < List.length (w_dicts w) ->
  nth r (w_dicts w') [] = nth r (w_dicts w) [] /\ r < List.length (w_dicts w').
Proof.
  intros (_ & _ & [d D]) Hr. rewrite D, app_nth1, length_app by assumption.
  split; [reflexivity | lia].
Qed.

Lemma set_nth_last {A} (l : list A) (x v : A) :
  set_nth (List.length l) v (l ++ [x]) = l ++ [v].
Proof. induction l as [| a l IH]; simpl; [reflexivity | now rewrite IH]. Qed.

Lemma nth_last {A} (l : list A) (x d : A) : nth (List.length l) (l ++ [x]) d = x.
Proof. now rewrite app_nth2, Nat.sub_diag by lia. Qed.

(** The tree described by a run depends on the classifier only through
    what the methods read. *)
Lemma built_transport log2 s s' X y :
  (forall mask, impurity_of log2 s' y mask = impurity_of log2 s y mask) ->
  classes s' = classes s ->
  (forall mask depth, may_split s' mask depth = may_split s mask depth) ->
  (forall mask available,
      split log2 s' X y mask available = split log2 s X y mask available) ->
  forall mask fv depth available sc node,
    built log2 s X y mask fv depth available sc node ->
    built log2 s' X y mask fv depth available sc node.
Proof.
  intros Himp Hcl Hmay Hsplit mask fv depth available sc node H.
  assert (Hnode : forall feature fv mask label childs,
             node_of log2 s y feature fv mask label childs
             = node_of log2 s' y feature fv mask label childs).
  { intros. unfold node_of. now rewrite Himp, Hcl. }
  induction H using built_mut with
    (P0 := fun depth available sc l cs _ =>
             built_childs log2 s' X y depth available sc l cs).
  - rewrite Hnode. apply built_stop; rewrite ?Hmay; assumption.
  - rewrite Hnode. eapply built_leaf; rewrite ?Hmay, ?Hsplit; eassumption.
  - rewrite Hnode. eapply built_split; rewrite ?Hmay, ?Hsplit; eassumption.
  - constructor.
  - constructor; assumption.
Qed.

(** The tree described by a run does not depend on the importances. *)
Lemma built_static log2 v s X y mask fv depth available sc node :
  built log2 (set_feature_importances v s) X y mask fv depth available sc node ->
  built log2 s X y mask fv depth available sc node.
Proof. apply built_transport; reflexivity. Qed.

Lemma built_childs_static log2 v s X y depth available sc l cs :
  built_childs log2 (set_feature_importances v s) X y depth available sc l cs ->
  built_childs log2 s X y depth available sc l cs.
Proof.
  induction 1; constructor; [eapply built_static; eassumption | assumption].
Qed.


Lemma wp_bind_ok {A B} (m : M A) (k : A -> M B) w w1 a
      (Q : world -> result B -> Prop) :
  m w = (w1, Ok a) -> wp (k a) w1 Q -> wp (mbind m k) w Q.
Proof. unfold wp, mbind. intros ->. auto. Qed.

Lemma wp_bind_err {A B} (m : M A) (k : A -> M B) w w1 e
      (Q : world -> result B -> Prop) :
  m w = (w1, Err e) -> Q w1 (Err e) -> wp (mbind m k) w Q.
Proof. unfold wp, mbind. intros ->. auto. Qed.

Lemma wp_ret {A} (a : A) w (Q : world -> result A -> Prop) :
  Q w (Ok a) -> wp (mret a) w Q.
Proof. auto. Qed.

Lemma copy_list_run r w :
  copy_list r w =
  (mkWorld (w_self w) (w_lists w ++ [nth r (w_lists w) []]) (w_dicts w),
   Ok (List.length (w_lists w))).
Proof. reflexivity. Qed.

Lemma copy_dict_run r w :
  copy_dict r w =
  (mkWorld (w_self w) (w_lists w) (w_dicts w ++ [nth r (w_dicts w) []]),
   Ok (List.length (w_dicts w))).
Proof. reflexivity. Qed.

Lemma read_dict_run r w : read_dict r w = (w, Ok (nth r (w_dicts w) [])).
Proof. reflexivity. Qed.

Lemma read_list_run r w : read_list r w = (w, Ok (nth r (w_lists w) [])).
Proof. reflexivity. Qed.

Lemma list_append_run r x w :
  list_append r x w =
  (mkWorld (w_self w) (set_nth r (nth r (w_lists w) [] ++ [x]) (w_lists w))
           (w_dicts w), Ok tt).
Proof. reflexivity. Qed.

Lemma list_extend_run r xs w :
  list_extend r xs w =
  (mkWorld (w_self w) (set_nth r (nth r (w_lists w) [] ++ xs) (w_lists w))
           (w_dicts w), Ok tt).
Proof. reflexivity. Qed.

Lemma dict_pop_run r k w :
  dict_pop r k w =
  (mkWorld (w_self w) (w_lists w)
           (set_nth r (dict_remove k (nth r (w_dicts w) [])) (w_dicts w)),
   Ok tt).
Proof. reflexivity. Qed.

Lemma valid_dict_last s l (d : list hierarchy) x :
  valid_dict (mkWorld s l (d ++ [x])) (Some (List.length d)).
Proof.
  intros r' E. injection E as <-. cbn [w_dicts]. rewrite length_app.
  cbn [List.length]. lia.
Qed.

(** [unlock] mutates only the fresh copy of the eligible features and a
    fresh copy of the hierarchy. *)
Lemma unlock_spec f available w rs :
  valid_dict (mkWorld (w_self w) (w_lists w ++ [available]) (w_dicts w)) rs ->
  wp (unlock f (List.length (w_lists w)) rs)
     (mkWorld (w_self w) (w_lists w ++ [available]) (w_dicts w))
     (fun w' res =>
        exists rs' d,
          res = Ok rs'
          /\ w_self w' = w_self w
          /\ w_lists w' =
               w_lists w ++ [fst (pure_unlock f available (deref_dict w rs))]
          /\ w_dicts w' = w_dicts w ++ d
          /\ valid_dict w' rs'
          /\ deref_dict w' rs' = snd (pure_unlock f available (deref_dict w rs))).
Proof.
  intros Hv. destruct rs as [r |]; unfold unlock, pure_unlock, deref_dict;
    cbn [option_map].
  - assert (Hr : r < List.length (w_dicts w)) by (apply Hv; reflexivity).
    eapply wp_bind_ok; [apply read_dict_run |]. cbn [w_dicts].
    destruct (nonempty (nth r (w_dicts w) [])) eqn:Ed.
    + eapply wp_bind_ok; [apply copy_dict_run |]. cbn [w_dicts w_lists w_self].
      eapply wp_bind_ok; [apply read_dict_run |]. cbn [w_dicts].
      rewrite nth_last.
      destruct (assoc f (nth r (w_dicts w) [])) as [[s | l] |] eqn:Ea.
      * eapply wp_bind_ok; [apply list_append_run |].
        cbn [w_dicts w_lists w_self]. rewrite nth_last, set_nth_last.
        eapply wp_bind_ok; [apply dict_pop_run |].
        cbn [w_dicts w_lists w_self]. rewrite nth_last, set_nth_last.
        apply wp_ret.
        exists (Some (List.length (w_dicts w))),
          [dict_remove f (nth r (w_dicts w) [])].
        cbn [gated_names fst snd w_dicts w_lists w_self option_map].
        repeat split; auto.
        -- apply valid_dict_last.
        -- now rewrite nth_last.
      * eapply wp_bind_ok; [apply list_extend_run |].
        cbn [w_dicts w_lists w_self]. rewrite nth_last, set_nth_last.
        eapply wp_bind_ok; [apply dict_pop_run |].
        cbn [w_dicts w_lists w_self]. rewrite nth_last, set_nth_last.
        apply wp_ret.
        exists (Some (List.length (w_dicts w))),
          [dict_remove f (nth r (w_dicts w) [])].
        cbn [gated_names fst snd w_dicts w_lists w_self option_map].
        repeat split; auto.
        -- apply valid_dict_last.
        -- now rewrite nth_last.
      * apply wp_ret.
        exists (Some (List.length (w_dicts w))), [nth r (w_dicts w) []].
        cbn [fst snd w_dicts w_lists w_self option_map].
        repeat split; auto.
        -- apply valid_dict_last.
        -- now rewrite nth_last.
    + apply wp_ret. exists (Some r), [].
      cbn [fst snd w_dicts w_lists w_self option_map].
      rewrite app_nil_r. repeat split; auto.
  - apply wp_ret. exists None, []. cbn. rewrite app_nil_r. repeat split; auto;
    intros r' E; discriminate E.
Qed.


Lemma valid_dict_extends w w' rs : extends w w' -> valid_dict w rs -> valid_dict w' rs.
Proof.
  intros He Hv r' ->. apply (extends_dict He). now apply Hv.
Qed.

Lemma deref_dict_extends w w' rs :
  extends w w' -> valid_dict w rs -> deref_dict w' rs = deref_dict w rs.
Proof.
  intros He Hv. destruct rs as [r |]; [| reflexivity]. unfold deref_dict; cbn.
  f_equal. apply (extends_dict He). now apply Hv.
Qed.


Lemma for_each_sound log2 fuel X y depth ra rs :
  (forall mask fv w,
      ra < List.length (w_lists w) -> valid_dict w rs ->
      wp (generate_node log2 fuel X y mask (Some fv) depth ra rs) w
         (gen_post log2 X y mask (Some fv) depth ra rs w)) ->
  forall l w,
    ra < List.length (w_lists w) -> valid_dict w rs ->
    wp (for_each (fun '(mask, fv) =>
                    generate_node log2 fuel X y mask (Some fv) depth ra rs) l)
       w
       (fun w' res =>
          extends w w'
          /\ forall cs, res = Ok cs ->
               built_childs log2 (w_self w) X y depth (deref_list w ra)
                            (deref_dict w rs) l cs).
Proof.
  intros IH l. induction l as [| [mask fv] l IHl]; intros w Hra Hrs.
  - apply wp_ret. split; [apply extends_refl |].
    intros cs [= <-]. constructor.
  - cbn [for_each]. apply wp_bind.
    eapply wp_weaken; [apply IH; assumption |].
    intros w1 r1 [He1 Hb1]. destruct r1 as [c | e].
    + apply wp_bind.
      eapply wp_weaken;
        [apply IHl; [apply (extends_list He1 Hra)
                    | eapply valid_dict_extends; eassumption] |].
      intros w2 r2 [He2 Hb2]. destruct r2 as [cs | e].
      * apply wp_ret. split; [eapply extends_trans; eassumption |].
        intros cs' [= <-]. constructor; [now apply Hb1 |].
        specialize (Hb2 cs eq_refl).
        unfold deref_list in *.
        rewrite (proj1 (extends_list He1 Hra)) in Hb2.
        rewrite (deref_dict_extends He1 Hrs) in Hb2.
        destruct He1 as ([v Hv] & _). rewrite Hv in Hb2.
        eapply built_childs_static; eassumption.
      * split; [eapply extends_trans; eassumption | discriminate].
    + split; [assumption | discriminate].
Qed.

Lemma add_importance_spec f n g w :
  exists s r,
    add_importance f n g w = (mkWorld s (w_lists w) (w_dicts w), r)
    /\ exists v, s = set_feature_importances v (w_self w).
Proof.
  unfold add_importance, mbind, get_self, put_self, raise.
  assert (Hid : exists v, w_self w = set_feature_importances v (w_self w)).
  { exists (feature_importances (w_self w)). destruct (w_self w); reflexivity. }
  destruct (feature_importances (w_self w)) as [d |];
    [destruct (total_samples_num (w_self w)) as [t |];
     [destruct (assoc f d) as [old |] |] |];
    cbn [w_self w_lists w_dicts]; destruct w as [s l d']; cbn in *; eauto.
Qed.

Theorem generate_node_sound log2 fuel :
  forall X y mask fv depth ra rs w,
    ra < List.length (w_lists w) -> valid_dict w rs ->
    wp (generate_node log2 fuel X y mask fv depth ra rs) w
       (gen_post log2 X y mask fv depth ra rs w).
Proof.
  induction fuel as [| fuel IH]; intros X y mask fv depth ra rs w Hra Hrs.
  - split; [apply extends_refl | discriminate].
  - cbn [generate_node].
    eapply wp_bind_ok; [reflexivity |].
    apply wp_bind. unfold wp at 1, lift; cbn [fst snd].
    destruct (majority (sloc y mask)) as [label | e] eqn:Hlabel;
      [| split; [apply extends_refl | discriminate]].
    apply wp_bind.
    fold (may_split (w_self w) mask depth).
    destruct (may_split (w_self w) mask depth) eqn:Hmay.
    2:{ apply wp_ret. apply wp_ret. split; [apply extends_refl |].
        intros node [= <-]. now apply built_stop. }
    eapply wp_bind_ok; [apply read_list_run |].
    apply wp_bind. unfold wp at 1, lift; cbn [fst snd].
    destruct (split log2 (w_self w) X y mask (nth ra (w_lists w) []))
      as [[[[feature masks] fvs] gain] | e] eqn:Hsplit;
      [| split; [apply extends_refl | discriminate]].
    destruct feature as [f |].
    2:{ apply wp_ret. apply wp_ret. split; [apply extends_refl |].
        intros node [= <-]. eapply built_leaf; eauto. }
    destruct (str_truthy f) eqn:Hf.
    2:{ apply wp_ret. apply wp_ret. split; [apply extends_refl |].
        intros node [= <-]. eapply built_leaf; eauto. }
    eapply wp_bind_ok; [apply copy_list_run |].
    destruct (add_importance_spec f (msum mask) gain
                (mkWorld (w_self w) (w_lists w ++ [nth ra (w_lists w) []])
                         (w_dicts w)))
      as (s2 & r2 & Hrun & v & Hs2).
    cbn [w_self w_lists w_dicts] in Hrun, Hs2.
    assert (Hext1 : extends w (mkWorld s2 (w_lists w ++ [nth ra (w_lists w) []])
                                       (w_dicts w))).
    { repeat split; cbn [w_self w_lists w_dicts]; eauto.
      exists []. now rewrite app_nil_r. }
    destruct r2 as [[] | e].
    2:{ eapply wp_bind_err; [exact Hrun |]. split; [exact Hext1 | discriminate]. }
    eapply wp_bind_ok; [exact Hrun |].
    apply wp_bind.
    eapply wp_weaken.
    { apply (@unlock_spec f (nth ra (w_lists w) [])
                          (mkWorld s2 (w_lists w) (w_dicts w)) rs).
      intros r' Hr'. cbn [w_dicts]. now apply Hrs. }
    cbn [w_self w_lists w_dicts].
    intros w3 r3 (rs' & d & -> & Hs3 & Hl3 & Hd3 & Hv3 & Hdr3).
    assert (Hext3 : extends w w3).
    { repeat split; eauto. exists v. now rewrite Hs3. }
    apply wp_bind.
    eapply wp_weaken.
    { apply (@for_each_sound log2 fuel X y (S depth) (List.length (w_lists w)) rs').
      - intros mask' fv' w' Hra' Hrs'. apply IH; assumption.
      - rewrite Hl3, length_app. cbn [List.length]. lia.
      - exact Hv3. }
    intros w4 r4 [Hext4 Hb4]. destruct r4 as [cs | e].
    2:{ split; [eapply extends_trans; eassumption | discriminate]. }
    apply wp_ret. apply wp_ret.
    split; [eapply extends_trans; eassumption |].
    intros node [= <-].
    eapply built_split; eauto.
    specialize (Hb4 cs eq_refl).
    unfold deref_list in Hb4. rewrite Hl3, nth_last, Hdr3, Hs3, Hs2 in Hb4.
    unfold deref_dict in Hb4 |- *. cbn [w_dicts] in Hb4.
    eapply built_childs_static. exact Hb4.
Qed.


(* ================================================================= *)
(** ** The evaluators *)

Lemma Qltb_lt a b : Qltb a b = true <-> (a < b)%Q.
Proof.
  unfold Qltb. rewrite negb_true_iff. split.
  - intros H. apply Qnot_le_lt. intros Hle.
    apply Qle_bool_iff in Hle. congruence.
  - intros H. destruct (Qle_bool b a) eqn:E; [| reflexivity].
    apply Qle_bool_iff in E. exfalso. eapply Qlt_not_le; eassumption.
Qed.

Lemma Qltb_ge a b : Qltb a b = false <-> (b <= a)%Q.
Proof.
  unfold Qltb. rewrite negb_false_iff. apply Qle_bool_iff.
Qed.



Lemma keep_best_chosen (P : evaluation -> Prop) best g cms fvs :
  chosen P best ->
  ((0 < g)%Q -> P (g, cms, fvs)) ->
  chosen P (keep_best best g cms fvs).
Proof.
  intros Hb Hnew. unfold keep_best. destruct best as [[bg bm] bf].
  destruct (Qltb bg g) eqn:E; [| exact Hb].
  apply Qltb_lt in E. right.
  assert (Hpos : (0 < g)%Q).
  { destruct Hb as [Hb | [Hb _]].
    - injection Hb as -> _ _. exact E.
    - unfold gain_of in Hb; cbn in Hb. eapply Qlt_trans; eassumption. }
  split; [exact Hpos | now apply Hnew].
Qed.

Lemma keep_best_rejected (P : evaluation -> Prop) best fvs :
  chosen P best -> keep_best best 0 [] fvs = best.
Proof.
  intros Hb. unfold keep_best. destruct best as [[bg bm] bf].
  destruct (Qltb bg 0) eqn:E; [| reflexivity].
  apply Qltb_lt in E. exfalso. destruct Hb as [Hb | [Hb _]].
  - injection Hb as -> _ _. now apply (Qlt_irrefl 0).
  - unfold gain_of in Hb; cbn in Hb.
    apply (Qlt_irrefl 0). eapply Qlt_trans; eassumption.
Qed.

Section EvaluatorFacts.
Variable log2 : Q -> Q.
Variable self : classifier.
Variable X : DataFrame.
Variable y : Series pyval.
Variable parent_mask : Mask.


Lemma cat_loop_chosen f col all_cands :
  getcol X f = Ok col ->
  forall cands best e,
    incl cands all_cands ->
    chosen (cat_selected log2 self y parent_mask col all_cands) best ->
    cat_loop log2 self X y parent_mask f cands best = Ok e ->
    chosen (cat_selected log2 self y parent_mask col all_cands) e.
Proof.
  intros Hcol cands. induction cands as [| fvs cands IH]; intros best e Hin Hb Hrun.
  - injection Hrun as <-. exact Hb.
  - cbn [cat_loop] in Hrun. unfold categorical_split in Hrun.
    rewrite Hcol in Hrun. cbn [rbind] in Hrun.
    assert (Hin' : incl cands all_cands)
      by (intros z Hz; apply Hin; now right).
    destruct (cat_child_masks self parent_mask col fvs) as [cms |] eqn:Ecm;
      cbn [rbind] in Hrun.
    + eapply IH; [exact Hin' | | exact Hrun].
      apply keep_best_chosen; [exact Hb |].
      intros _. repeat split; cbn; auto. apply Hin. now left.
    + rewrite (keep_best_rejected _ Hb) in Hrun. eapply IH; eauto.
Qed.

(** [__best_categorical_split] returns either no split or a candidate
    partition whose every child is large enough, with its gain. *)
Lemma best_categorical_split_spec f e :
  best_categorical_split log2 self X y parent_mask f = Ok e ->
  exists col,
    getcol X f = Ok col
    /\ (e = no_split
        \/ exists vals cands,
            2 <= List.length (present_values col parent_mask)
            /\ py_sorted (present_values col parent_mask) = Ok vals
            /\ cat_candidates self vals = Ok cands
            /\ (0 < gain_of e)%Q
            /\ cat_selected log2 self y parent_mask col cands e).
Proof.
  unfold best_categorical_split. intros H.
  destruct (getcol X f) as [col |] eqn:Hcol; [| discriminate].
  exists col. split; [reflexivity |]. cbn [rbind] in H.
  destruct (Nat.leb (List.length (present_values col parent_mask)) 1) eqn:Hlen.
  - left. now injection H as <-.
  - apply Nat.leb_gt in Hlen.
    destruct (py_sorted (present_values col parent_mask)) as [vals |] eqn:Hs;
      [| discriminate].
    cbn [rbind] in H.
    destruct (cat_candidates self vals) as [cands |] eqn:Hc; [| discriminate].
    cbn [rbind] in H.
    destruct (@cat_loop_chosen f col cands Hcol cands no_split e) as [-> | [Hpos Hsel]];
      auto.
    + apply incl_refl.
    + now left.
    + right. exists vals, cands. repeat split; auto; try lia; apply Hsel.
Qed.


Lemma rank_loop_chosen f all_cuts :
  forall cuts best e,
    incl cuts all_cuts ->
    chosen (fun e => exists col, getcol X f = Ok col
                                 /\ rank_selected log2 self y parent_mask col all_cuts e) best ->
    rank_loop log2 self X y parent_mask f cuts best = Ok e ->
    chosen (fun e => exists col, getcol X f = Ok col
                                 /\ rank_selected log2 self y parent_mask col all_cuts e) e.
Proof.
  intros cuts. induction cuts as [| [l r] cuts IH]; intros best e Hin Hb Hrun.
  - injection Hrun as <-. exact Hb.
  - cbn [rank_loop] in Hrun. unfold rank_split in Hrun.
    destruct (getcol X f) as [col |] eqn:Hcol; [| discriminate].
    cbn [rbind] in Hrun.
    assert (Hin' : incl cuts all_cuts)
      by (intros z Hz; apply Hin; now right).
    destruct (existsb (too_small self) (rank_child_masks parent_mask col l r))
      eqn:Esmall; cbn [rbind fst snd] in Hrun.
    + rewrite (keep_best_rejected _ Hb) in Hrun. eapply IH; eauto.
    + eapply IH; [exact Hin' | | exact Hrun].
      apply keep_best_chosen; [exact Hb |].
      intros _. exists col. split; [reflexivity |].
      exists l, r. repeat split; cbn; auto. apply Hin. now left.
Qed.

Lemma best_rank_split_spec f e :
  best_rank_split log2 self X y parent_mask f = Ok e ->
  exists vocabulary,
    assoc f (rank_feature_names self) = Some vocabulary
    /\ (e = no_split
        \/ ((0 < gain_of e)%Q
            /\ exists col,
                getcol X f = Ok col
                /\ rank_selected log2 self y parent_mask col (rank_partition vocabulary) e)).
Proof.
  unfold best_rank_split. intros H.
  destruct (assoc f (rank_feature_names self)) as [vocabulary |] eqn:Hv;
    [| discriminate].
  exists vocabulary. split; [reflexivity |].
  eapply rank_loop_chosen; [apply incl_refl | now left | exact H].
Qed.


Lemma num_loop_chosen col all_thresholds :
  forall thresholds best e,
    incl thresholds all_thresholds ->
    chosen (num_selected log2 self y parent_mask col all_thresholds) best ->
    num_loop log2 self y parent_mask col thresholds best = Ok e ->
    chosen (num_selected log2 self y parent_mask col all_thresholds) e.
Proof.
  intros ths. induction ths as [| t ths IH]; intros best e Hin Hb Hrun.
  - injection Hrun as <-. exact Hb.
  - cbn [num_loop] in Hrun.
    destruct (numeric_column col); [| discriminate].
    assert (Hin' : incl ths all_thresholds)
      by (intros z Hz; apply Hin; now right).
    destruct (existsb (too_small self) (num_child_masks parent_mask col t))
      eqn:Esmall.
    + eapply IH; eauto.
    + eapply IH; [exact Hin' | | exact Hrun].
      apply keep_best_chosen; [exact Hb |].
      intros _. exists t. repeat split; cbn; auto. apply Hin. now left.
Qed.

Lemma numerical_split_spec f e :
  numerical_split log2 self X y parent_mask f = Ok e ->
  exists col thresholds,
    getcol X f = Ok col
    /\ thresholds_of col parent_mask = Ok thresholds
    /\ (e = no_split
        \/ ((0 < gain_of e)%Q /\ num_selected log2 self y parent_mask col thresholds e)).
Proof.
  unfold numerical_split. intros H.
  destruct (getcol X f) as [col |] eqn:Hcol; [| discriminate].
  cbn [rbind] in H.
  destruct (thresholds_of col parent_mask) as [ths |] eqn:Hths;
    [| discriminate].
  cbn [rbind] in H. exists col, ths.
  split; [reflexivity | split; [exact Hths |]].
  eapply num_loop_chosen; [apply incl_refl | now left | exact H].
Qed.
End EvaluatorFacts.


(* ================================================================= *)
(** ** The split selector *)

Section SelectorFacts.
Variable log2 : Q -> Q.
Variable self : classifier.
Variable X : DataFrame.
Variable y : Series pyval.
Variable parent_mask : Mask.



Lemma select_step_spec done best f e :
  selected_from log2 self X y parent_mask done best ->
  evaluate log2 self X y parent_mask f = Ok e ->
  selected_from log2 self X y parent_mask (done ++ [f]) (select_step self best f e).
Proof.
  intros Hinv Hev. destruct best as [[[bf bm] bv] bg].
  destruct e as [[g m] v]. unfold select_step.
  destruct (Qle_bool (min_impurity_decrease self) g && Qltb bg g) eqn:Hq.
  - apply andb_true_iff in Hq. destruct Hq as [Hmid Hlt].
    apply Qle_bool_iff in Hmid. apply Qltb_lt in Hlt.
    cbn. exists done, []. split; [reflexivity |].
    split; [exact Hev |]. split; [exact Hmid |].
    destruct bf as [f0 |].
    + destruct Hinv as (pre & post & -> & Hev0 & Hmid0 & Hpos0 & Hpre & Hpost).
      split; [Lqa.lra |]. split; [| intros ? ? []].
      intros f' e' Hin He'.
      apply in_app_or in Hin. destruct Hin as [Hin | [<- | Hin]].
      * specialize (Hpre _ _ Hin He'). Lqa.lra.
      * rewrite Hev0 in He'. injection He' as <-. cbn. Lqa.lra.
      * specialize (Hpost _ _ Hin He'). Lqa.lra.
    + destruct Hinv as (-> & -> & -> & Hnone).
      split; [exact Hlt |]. split; [| intros ? ? []].
      intros f' e' Hin He'. specialize (Hnone _ _ Hin He').
      destruct (Qlt_le_dec (gain_of e') g) as [? | Hge]; [assumption |].
      exfalso. apply Hnone. split; Lqa.lra.
  - apply andb_false_iff in Hq. cbn.
    destruct bf as [f0 |].
    + destruct Hinv as (pre & post & -> & Hev0 & Hmid0 & Hpos0 & Hpre & Hpost).
      exists pre, (post ++ [f]). rewrite <- app_assoc. cbn.
      repeat split; auto.
      intros f' e' Hin He'.
      apply in_app_or in Hin. destruct Hin as [Hin | [<- | []]].
      * eauto.
      * rewrite Hev in He'. injection He' as <-. cbn.
        destruct Hq as [Hq | Hq].
        -- destruct (Qle_bool (min_impurity_decrease self) g) eqn:E;
             [discriminate |].
           destruct (Qlt_le_dec bg g) as [Hlt | ?]; [| assumption].
           exfalso. assert (Hc : (min_impurity_decrease self <= g)%Q) by Lqa.lra.
           apply Qle_bool_iff in Hc. congruence.
        -- now apply Qltb_ge in Hq.
    + destruct Hinv as (-> & -> & -> & Hnone).
      repeat split; auto.
      intros f' e' Hin He'.
      apply in_app_or in Hin. destruct Hin as [Hin | [<- | []]].
      * eauto.
      * rewrite Hev in He'. injection He' as <-. cbn.
        intros [Hmid Hpos]. destruct Hq as [Hq | Hq].
        -- apply Qle_bool_iff in Hmid. congruence.
        -- apply Qltb_ge in Hq. Lqa.lra.
Qed.

Lemma split_loop_spec features :
  forall done best res,
    selected_from log2 self X y parent_mask done best ->
    split_loop log2 self X y parent_mask features best = Ok res ->
    selected_from log2 self X y parent_mask (done ++ features) res.
Proof.
  induction features as [| f features IH]; intros done best res Hinv Hrun.
  - injection Hrun as <-. now rewrite app_nil_r.
  - cbn [split_loop] in Hrun.
    destruct (evaluate log2 self X y parent_mask f) as [e |] eqn:He;
      [| discriminate].
    cbn [rbind] in Hrun.
    replace (done ++ f :: features) with ((done ++ [f]) ++ features)
      by (now rewrite <- app_assoc).
    eapply IH; [| exact Hrun]. now apply select_step_spec.
Qed.

Lemma split_spec features res :
  split log2 self X y parent_mask features = Ok res ->
  selected_from log2 self X y parent_mask features res.
Proof.
  intros H. apply (@split_loop_spec features [] no_selection res); [| exact H].
  cbn. repeat split; auto.
Qed.

Lemma split_loop_total features :
  forall best res,
    split_loop log2 self X y parent_mask features best = Ok res ->
    forall f, In f features -> exists e, evaluate log2 self X y parent_mask f = Ok e.
Proof.
  induction features as [| f0 features IH]; intros best res Hrun f Hin.
  - destruct Hin.
  - cbn [split_loop] in Hrun.
    destruct (evaluate log2 self X y parent_mask f0) as [e |] eqn:He;
      [| discriminate].
    destruct Hin as [<- | Hin]; [eauto | eapply IH; eauto].
Qed.
End SelectorFacts.

Lemma mbind_ok {A B} (m : M A) (k : A -> M B) w w1 a :
  m w = (w1, Ok a) -> mbind m k w = k a w1.
Proof. unfold mbind. now intros ->. Qed.

(** A node whose subset finds no split is a leaf. *)
Lemma generate_node_leaf log2 fuel X y mask fv depth ra rs w label
      masks fvs gain :
  majority (sloc y mask) = Ok label ->
  split log2 (w_self w) X y mask (nth ra (w_lists w) [])
    = Ok (None, masks, fvs, gain) ->
  generate_node log2 (S fuel) X y mask fv depth ra rs w
  = (w, Ok (node_of log2 (w_self w) y None fv mask label [])).
Proof.
  intros Hlabel Hsplit. cbn [generate_node].
  erewrite mbind_ok by reflexivity.
  erewrite mbind_ok by (unfold lift; rewrite Hlabel; reflexivity).
  destruct ((min_samples_split (w_self w) <=? Z.of_nat (msum mask))%Z
            && depth_allows (w_self w) depth).
  - match goal with
    | |- mbind ?m _ _ = _ =>
        assert (Hinner : m w = (w, Ok (@None string, @nil Node)))
    end.
    { erewrite mbind_ok by apply read_list_run.
      erewrite mbind_ok by (unfold lift; rewrite Hsplit; reflexivity).
      reflexivity. }
    erewrite mbind_ok by exact Hinner. reflexivity.
  - erewrite mbind_ok by reflexivity. reflexivity.
Qed.


(* ================================================================= *)
(** ** [fit] *)

Lemma mbind_err {A B} (m : M A) (k : A -> M B) w w1 e :
  m w = (w1, Err e) -> mbind m k w = (w1, Err e).
Proof. unfold mbind. now intros ->. Qed.

Lemma list_remove_run (L : list (list string)) l x s D :
  list_remove (List.length L) x (mkWorld s (L ++ [l]) D) =
  match remove_first x l with
  | Some l' => (mkWorld s (L ++ [l']) D, Ok tt)
  | None => (mkWorld s (L ++ [l]) D,
             Err (ValueError "list.remove(x): x not in list"))
  end.
Proof.
  unfold list_remove. erewrite mbind_ok by apply read_list_run.
  cbn [w_lists]. rewrite nth_last.
  destruct (remove_first x l) as [l' |]; [| reflexivity].
  unfold write_list. cbn [w_self w_lists w_dicts]. now rewrite set_nth_last.
Qed.

Lemma remove_names_run (L : list (list string)) s D names :
  forall l,
  exists l' r,
    (fix each (l0 : list string) : M unit :=
       match l0 with
       | [] => mret tt
       | feature_name :: l'0 =>
           (list_remove (List.length L) feature_name ;;; each l'0)%M
       end) names (mkWorld s (L ++ [l]) D)
    = (mkWorld s (L ++ [l']) D, r)
    /\ (r = Ok tt <-> remove_all names l = Some l')
    /\ (forall e, r = Err e -> remove_all names l = None).
Proof.
  induction names as [| x names IH]; intros l.
  - exists l, (Ok tt). repeat split; auto; discriminate.
  - cbn [remove_all]. destruct (remove_first x l) as [l1 |] eqn:E.
    + destruct (IH l1) as (l' & r & Hrun & Hok & Herr).
      exists l', r. split; [| split; assumption].
      erewrite mbind_ok; [exact Hrun |]. rewrite list_remove_run, E. reflexivity.
    + exists l, (Err (ValueError "list.remove(x): x not in list")).
      split; [| split; [split; discriminate | reflexivity]].
      unfold mbind. now rewrite list_remove_run, E.
Qed.

Lemma remove_all_app a b l :
  remove_all (a ++ b) l =
  match remove_all a l with
  | Some l' => remove_all b l'
  | None => None
  end.
Proof.
  revert l. induction a as [| x a IH]; intros l; [reflexivity |].
  cbn [app remove_all]. destruct (remove_first x l); [apply IH | reflexivity].
Qed.

Lemma remove_gated_run (L : list (list string)) s D values :
  forall l,
  exists l' r,
    remove_gated (List.length L) values (mkWorld s (L ++ [l]) D)
    = (mkWorld s (L ++ [l']) D, r)
    /\ (r = Ok tt <-> remove_all (flat_map gated_names values) l = Some l')
    /\ (forall e, r = Err e ->
          remove_all (flat_map gated_names values) l = None).
Proof.
  induction values as [| g values IH]; intros l.
  - exists l, (Ok tt). repeat split; auto; discriminate.
  - cbn [flat_map]. rewrite remove_all_app. destruct g as [x | names].
    + cbn [remove_gated gated_names remove_all].
      destruct (remove_first x l) as [l1 |] eqn:E.
      * destruct (IH l1) as (l' & r & Hrun & Hok & Herr).
        exists l', r. split; [| split; assumption].
        erewrite mbind_ok; [exact Hrun |].
        rewrite list_remove_run, E. reflexivity.
      * exists l, (Err (ValueError "list.remove(x): x not in list")).
        split; [| split; [split; discriminate | reflexivity]].
        unfold mbind. now rewrite list_remove_run, E.
    + cbn [remove_gated gated_names].
      destruct (remove_names_run L s D names l) as (l1 & r1 & Hrun1 & Hok1 & Herr1).
      destruct r1 as [[] | e1].
      * rewrite (proj1 Hok1 eq_refl).
        destruct (IH l1) as (l' & r & Hrun & Hok & Herr).
        exists l', r. split; [| split; assumption].
        erewrite mbind_ok; [exact Hrun | exact Hrun1].
      * rewrite (Herr1 _ eq_refl). exists l1, (Err e1).
        split; [| split; [split; discriminate | reflexivity]].
        now erewrite mbind_err by exact Hrun1.
Qed.

Lemma modify_self_run f w :
  modify_self f w = (mkWorld (f (w_self w)) (w_lists w) (w_dicts w), Ok tt).
Proof. reflexivity. Qed.

Lemma nonempty_remove_all (d : hierarchy) l :
  nonempty d = false ->
  remove_all (flat_map gated_names (map snd d)) l = Some l.
Proof. destruct d; [reflexivity | discriminate]. Qed.

Theorem fit_outcome log2 fuel X y cat rank num sc w :
  wp (fit log2 fuel X y cat rank num sc) w (fit_post log2 X y cat rank num sc w).
Proof.
  unfold fit. apply wp_bind. unfold wp at 1, lift; cbn [fst snd].
  destruct (check_fit_params X y cat rank num) as [[] | e0] eqn:Hcheck.
  2:{ split; [reflexivity | intros; reflexivity]. }
  eapply wp_bind_ok; [apply modify_self_run |].
  apply wp_bind. unfold wp at 1, lift; cbn [fst snd].
  destruct (py_sorted (unique y)) as [cn | e1] eqn:Hcn.
  2:{ split; [reflexivity | intros e' He'; congruence]. }
  eapply wp_bind_ok; [apply modify_self_run |]. cbn [w_self w_lists w_dicts].
  set (s2 := set_class_names (Some cn) (set_feature_names (Some (columns X)) (w_self w))).
  eapply (@wp_bind_ok _ _ _ _ _
            (mkWorld (if nonempty (given cat)
                      then set_cat_feature_names (given cat) s2 else s2)
                     (w_lists w) (w_dicts w)) tt).
  { destruct (nonempty (given cat)); reflexivity. }
  set (s3 := if nonempty (given cat) then _ else _).
  eapply (@wp_bind_ok _ _ _ _ _
            (mkWorld (if nonempty (given rank)
                      then set_rank_feature_names (given rank) s3 else s3)
                     (w_lists w) (w_dicts w)) tt).
  { destruct (nonempty (given rank)); reflexivity. }
  set (s4 := if nonempty (given rank) then _ else _).
  eapply (@wp_bind_ok _ _ _ _ _
            (mkWorld (if nonempty (given num)
                      then set_num_feature_names (given num) s4 else s4)
                     (w_lists w) (w_dicts w)) tt).
  { destruct (nonempty (given num)); reflexivity. }
  set (s5 := if nonempty (given num) then _ else _).
  eapply wp_bind_ok; [apply modify_self_run |].
  eapply wp_bind_ok; [apply modify_self_run |]. cbn [w_self w_lists w_dicts].
  fold (fitted_attrs X cn cat rank num (w_self w)).
  set (s7 := set_feature_importances _ _).
  assert (Hs7 : s7 = fitted_attrs X cn cat rank num (w_self w)) by reflexivity.
  assert (Htree7 : tree s7 = tree (w_self w)).
  { subst s7 s5 s4 s3 s2.
    destruct (nonempty (given cat)), (nonempty (given rank)),
      (nonempty (given num)); reflexivity. }
  eapply wp_bind_ok; [reflexivity |]. cbn [w_self w_lists w_dicts].
  set (D := match sc with Some d => w_dicts w ++ [d] | None => w_dicts w end).
  set (rs := match sc with
             | Some _ => Some (List.length (w_dicts w))
             | None => None
             end).
  eapply (@wp_bind_ok _ _ _ _ _ (mkWorld s7 (w_lists w ++ [columns X]) D) rs).
  { subst D rs. destruct sc; reflexivity. }
  destruct (remove_gated_run (w_lists w) s7 D (map snd (given sc)) (columns X))
    as (avail & rg & Hrun & Hok & Herr).
  assert (Hstep :
            exists l' r,
              (if nonempty (given sc)
               then remove_gated (List.length (w_lists w)) (map snd (given sc))
               else mret tt) (mkWorld s7 (w_lists w ++ [columns X]) D)
              = (mkWorld s7 (w_lists w ++ [l']) D, r)
              /\ (r = Ok tt -> remove_all (gated_all sc) (columns X) = Some l')).
  { destruct (nonempty (given sc)) eqn:Hne.
    - exists avail, rg. split; [exact Hrun | apply Hok].
    - exists (columns X), (Ok tt). split; [reflexivity |].
      intros _. now apply nonempty_remove_all. }
  destruct Hstep as (l' & r & Hrun' & Hok').
  destruct r as [[] | e2].
  2:{ eapply wp_bind_err; [exact Hrun' |]. cbn [w_self].
      split; [exact Htree7 | intros e' He'; congruence]. }
  eapply wp_bind_ok; [exact Hrun' |].
  apply wp_bind.
  eapply wp_weaken.
  { apply generate_node_sound.
    - cbn [w_lists]. rewrite length_app. cbn [List.length]. lia.
    - intros r' Hr'. subst rs D. cbn [w_dicts].
      destruct sc; [| discriminate]. injection Hr' as <-.
      rewrite length_app. cbn [List.length]. lia. }
  intros w8 r8 [Hext Hb]. cbn [w_self] in Hb.
  destruct Hext as ([v Hv] & _ & _). cbn [w_self] in Hv.
  destruct r8 as [root | e3].
  2:{ cbn. rewrite Hv. split; [exact Htree7 | intros e' He'; congruence]. }
  unfold wp, modify_self, mbind, get_self, put_self; cbn [fst snd w_self].
  exists cn, l', root, v. rewrite Hv, <- Hs7.
  repeat split; auto.
  specialize (Hb root eq_refl).
  unfold deref_list, deref_dict in Hb. cbn [w_lists w_dicts] in Hb.
  rewrite nth_last in Hb.
  replace (option_map (fun r : nat => nth r D []) rs) with sc in Hb.
  { exact Hb. }
  subst rs D. destruct sc; [| reflexivity]. cbn. now rewrite nth_last.
Qed.


(* ================================================================= *)
(** ** The minimum size of a leaf *)

Lemma too_small_false self m : too_small self m = false <-> large_enough self m.
Proof. unfold too_small, large_enough. apply Z.ltb_ge. Qed.

Lemma cat_child_masks_some self parent_mask col fvs :
  forall cms,
    cat_child_masks self parent_mask col fvs = Some cms ->
    cms = map (cat_child_mask parent_mask col) fvs
    /\ Forall (large_enough self) cms.
Proof.
  induction fvs as [| blk fvs IH]; intros cms H; cbn [cat_child_masks] in H.
  - injection H as <-. split; [reflexivity | constructor].
  - destruct (too_small self (cat_child_mask parent_mask col blk)) eqn:E;
      [discriminate |].
    destruct (cat_child_masks self parent_mask col fvs) as [cms' |];
      [| discriminate].
    injection H as <-. destruct (IH cms' eq_refl) as [-> HF].
    split; [reflexivity |]. constructor; [now apply too_small_false | exact HF].
Qed.

Lemma existsb_too_small self ms :
  existsb (too_small self) ms = false -> Forall (large_enough self) ms.
Proof.
  induction ms as [| m ms IH]; cbn; [constructor |].
  intros H. apply orb_false_iff in H. destruct H as [H1 H2].
  constructor; [now apply too_small_false | auto].
Qed.

(** Whatever an evaluator returns, its masks are large enough and there is
    one branch descriptor for each. *)
Lemma evaluate_masks log2 self X y parent_mask f e :
  evaluate log2 self X y parent_mask f = Ok e ->
  Forall (large_enough self) (masks_of e)
  /\ List.length (masks_of e) = List.length (values_of e).
Proof.
  unfold evaluate. intros H.
  destruct (dict_has f (cat_feature_names self)).
  { apply best_categorical_split_spec in H.
    destruct H as (col & _ & [-> | (vals & cands & _ & _ & _ & _ & _ & Hm & _)]).
    - split; [constructor | reflexivity].
    - apply cat_child_masks_some in Hm. destruct Hm as [-> HF].
      split; [exact HF | apply length_map]. }
  destruct (dict_has f (rank_feature_names self)).
  { apply best_rank_split_spec in H.
    destruct H as (voc & _ & [-> | (_ & col & _ & l & r & _ & Hv & Hm & Hs & _)]).
    - split; [constructor | reflexivity].
    - split; [now apply existsb_too_small |]. now rewrite Hv, Hm. }
  destruct (str_in f (num_feature_names self)); [| discriminate].
  apply numerical_split_spec in H.
  destruct H as (col & ths & _ & _ & [-> | (_ & t & _ & Hv & Hm & Hs & _)]).
  - split; [constructor | reflexivity].
  - split; [now apply existsb_too_small |]. now rewrite Hv, Hm.
Qed.

Lemma split_masks log2 self X y parent_mask features feature masks fvs gain :
  split log2 self X y parent_mask features = Ok (feature, masks, fvs, gain) ->
  Forall (large_enough self) masks /\ List.length masks = List.length fvs.
Proof.
  intros H. apply split_spec in H. cbn in H. destruct feature as [f |].
  - destruct H as (pre & post & _ & Hev & _).
    apply evaluate_masks in Hev. exact Hev.
  - destruct H as (-> & -> & _). split; [constructor | reflexivity].
Qed.

Lemma built_samples log2 self X y mask fv depth available sc node :
  built log2 self X y mask fv depth available sc node ->
  n_samples node = msum mask.
Proof. destruct 1; reflexivity. Qed.

Lemma in_combine_Forall {A B} (P : A -> Prop) (l : list A) (l' : list B) x :
  Forall P l -> In x (combine l l') -> P (fst x).
Proof.
  intros HF Hin. destruct x as [a b]. apply in_combine_l in Hin.
  rewrite Forall_forall in HF. now apply HF.
Qed.

Lemma built_descendants log2 self X y mask fv depth available sc node :
  built log2 self X y mask fv depth available sc node ->
  descendants (fun c => (min_samples_leaf self <= Z.of_nat (n_samples c))%Z) node.
Proof.
  intros H.
  induction H using built_mut with
    (P0 := fun depth available sc l cs _ =>
             forall c, In c cs ->
               (exists mv, In mv l /\ n_samples c = msum (fst mv))
               /\ descendants
                    (fun c => (min_samples_leaf self <= Z.of_nat (n_samples c))%Z)
                    c).
  - constructor. intros c [].
  - constructor. intros c [].
  - constructor. cbn [n_childs node_of]. intros c Hc.
    destruct (IHbuilt c Hc) as [(mv & Hmv & Hs) Hd].
    split; [| exact Hd]. rewrite Hs.
    apply split_masks in e1. destruct e1 as [HF _].
    apply (in_combine_Forall _ _ HF Hmv).
  - intros c [].
  - intros c [<- | Hc].
    + split; [| exact IHbuilt].
      exists (mask, fv). split; [now left |]. eapply built_samples; eassumption.
    + destruct (IHbuilt0 c Hc) as [(mv & Hmv & Hs) Hd].
      split; [| exact Hd]. exists mv. split; [now right | exact Hs].
Qed.


(* ================================================================= *)
(** ** Prediction *)

Lemma predict_node_unfold self node point :
  predict_node self node point =
  match n_feature node with
  | None => not_none (n_label node)
  | Some feature =>
      if is_branching self feature then
        search_branch (fun child => predict_node self child point)
                      point feature (n_label node) (n_childs node)
      else if str_in feature (num_feature_names self) then
        match n_childs node with
        | [] => Err IndexError
        | child0 :: rest =>
            (threshold <- parse_threshold child0 ;;
             v <- point_get point feature ;;
             match v with
             | PNum x =>
                 if Qle_bool x threshold
                 then (Y <- predict_node self child0 point ;; not_none Y)
                 else match rest with
                      | child1 :: _ =>
                          (Y <- predict_node self child1 point ;; not_none Y)
                      | [] => Err IndexError
                      end
             | PNaN => Err AssertionError
             | _ => Err TypeError
             end)%res
        end
      else Err AssertionError
  end.
Proof. destruct node as [[f |] fv i s d l cs]; reflexivity. Qed.

(** The search for the branch of a categorical or rank node. *)
Lemma search_skips go point feature label v before :
  point_get point feature = Ok v ->
  Forall (fun c => py_eq (descriptor c) v = false) before ->
  forall rest,
    search_branch go point feature label (before ++ rest)
    = search_branch go point feature label rest.
Proof.
  intros Hv HF rest. induction HF as [| c before Hc HF IH]; [reflexivity |].
  cbn [app search_branch]. rewrite Hv. cbn [rbind]. rewrite Hc. exact IH.
Qed.

Lemma search_none go point feature label v childs :
  point_get point feature = Ok v ->
  Forall (fun c => py_eq (descriptor c) v = false) childs ->
  search_branch go point feature label childs = not_none label.
Proof.
  intros Hv HF. rewrite <- (app_nil_r childs).
  now rewrite (search_skips go _ _ label Hv HF).
Qed.

(** An exception raised at a visited node is the outcome of the whole
    prediction. *)
Lemma routes_error self point node target e :
  routes self point node target ->
  predict_node self target point = Err e ->
  predict_node self node point = Err e.
Proof.
  intros Hr He. induction Hr as
      [ node
      | node f v before child after target Hf Hk Hcs Hv Hbefore Hchild Hr IH
      | node f child0 rest t x target Hf Hk Hcs Ht Hv Hle Hr IH
      | node f child0 child1 rest t x target Hf Hk Hcs Ht Hv Hle Hr IH ].
  - exact He.
  - rewrite predict_node_unfold, Hf, Hk, Hcs.
    rewrite (search_skips _ _ _ _ Hv Hbefore). cbn [search_branch].
    rewrite Hv. cbn [rbind]. rewrite Hchild, (IH He). reflexivity.
  - unfold is_numerical in Hk. apply andb_true_iff in Hk.
    destruct Hk as [Hnb Hnum]. apply negb_true_iff in Hnb.
    rewrite predict_node_unfold, Hf, Hnb, Hnum, Hcs, Ht. cbn [rbind].
    rewrite Hv. cbn [rbind]. rewrite Hle, (IH He). reflexivity.
  - unfold is_numerical in Hk. apply andb_true_iff in Hk.
    destruct Hk as [Hnb Hnum]. apply negb_true_iff in Hnb.
    rewrite predict_node_unfold, Hf, Hnb, Hnum, Hcs, Ht. cbn [rbind].
    rewrite Hv. cbn [rbind]. rewrite Hle, (IH He). reflexivity.
Qed.

Lemma routes_every_node self point P node target :
  routes self point node target -> every_node P node -> P target.
Proof.
  induction 1 as
      [ node
      | node f v before child after target Hf Hk Hcs Hv Hbefore Hchild Hr IH
      | node f child0 rest t x target Hf Hk Hcs Ht Hv Hle Hr IH
      | node f child0 child1 rest t x target Hf Hk Hcs Ht Hv Hle Hr IH ];
    intros Hall; inversion Hall as [n HP Hch]; subst.
  - exact HP.
  - apply IH, Hch. rewrite Hcs. apply in_or_app. right. now left.
  - apply IH, Hch. rewrite Hcs. now left.
  - apply IH, Hch. rewrite Hcs. right. now left.
Qed.

(** A missing value at a numerical node fails the assertion. *)
Lemma nan_at_numerical_node self point node f t c0 rest :
  n_feature node = Some f ->
  is_numerical self f = true ->
  n_childs node = c0 :: rest ->
  n_feature_value c0 = Some [PFStr "<= " t] ->
  point_get point f = Ok PNaN ->
  predict_node self node point = Err AssertionError.
Proof.
  intros Hf Hk Hcs Hfv Hv.
  unfold is_numerical in Hk. apply andb_true_iff in Hk.
  destruct Hk as [Hnb Hnum]. apply negb_true_iff in Hnb.
  rewrite predict_node_unfold, Hf, Hnb, Hnum, Hcs.
  unfold parse_threshold. rewrite Hfv. cbn. rewrite Hv. reflexivity.
Qed.

Lemma built_feature_value log2 self X y mask fv depth available sc node :
  built log2 self X y mask fv depth available sc node ->
  n_feature_value node = fv.
Proof. destruct 1; reflexivity. Qed.

(** The numerical nodes of a built tree carry a readable threshold. *)
Lemma built_threshold_readable log2 self X y mask fv depth available sc node :
  built log2 self X y mask fv depth available sc node ->
  every_node (threshold_readable self) node.
Proof.
  intros H.
  induction H using built_mut with
    (P0 := fun depth available sc l cs _ =>
             Forall2 (fun mv c => n_feature_value c = Some (snd mv)) l cs
             /\ forall c, In c cs -> every_node (threshold_readable self) c).
  - constructor; [| intros c []]. intros f _ Hne. now elim Hne.
  - constructor; [| intros c []]. intros f _ Hne. now elim Hne.
  - destruct IHbuilt as [HF2 Hall].
    constructor; [| exact Hall].
    intros f' Hf' _ Hnum. cbn in Hf'. injection Hf' as <-.
    apply split_spec in e1. cbn in e1.
    destruct e1 as (pre & post & _ & Hev & _ & Hpos & _).
    unfold is_numerical, is_branching in Hnum.
    apply andb_true_iff in Hnum. destruct Hnum as [Hnb Hin].
    apply negb_true_iff, orb_false_iff in Hnb. destruct Hnb as [Hc Hr].
    unfold evaluate in Hev. rewrite Hc, Hr, Hin in Hev.
    apply numerical_split_spec in Hev.
    destruct Hev as (col & ths & _ & _ & [Hns | (_ & t & _ & Hv & Hm & _)]).
    + injection Hns as -> _ _. exfalso. now apply (Qlt_irrefl 0).
    + cbn in Hv, Hm. subst masks feature_values. cbn in HF2.
      inversion HF2 as [| mv0 c0 l0 cs0 Hc0 HF2']; subst.
      inversion HF2' as [| mv1 c1 l1 cs1 Hc1 HF2'']; subst.
      inversion HF2''; subst.
      exists t, c0, c1. repeat split; assumption.
  - split; [constructor | intros c []].
  - destruct IHbuilt0 as [HF2 Hall]. split.
    + constructor; [| exact HF2]. cbn. eapply built_feature_value; eassumption.
    + intros c [<- | Hc]; [exact IHbuilt | now apply Hall].
Qed.


(* ================================================================= *)
(** ** The hierarchy of features *)

Lemma split_feature_in log2 self X y mask features f masks fvs gain :
  split log2 self X y mask features = Ok (Some f, masks, fvs, gain) ->
  In f features.
Proof.
  intros H. apply split_spec in H. cbn in H.
  destruct H as (pre & post & -> & _). apply in_or_app. right. now left.
Qed.

Lemma built_eligible_chain log2 self X y mask fv depth available sc node :
  built log2 self X y mask fv depth available sc node ->
  eligible_chain available sc node.
Proof.
  intros H.
  induction H using built_mut with
    (P0 := fun depth available sc l cs _ =>
             forall c, In c cs -> eligible_chain available sc c).
  - constructor; [discriminate | intros c []].
  - constructor; [| intros c []].
    cbn. intros f ->. eapply split_feature_in; eassumption.
  - constructor.
    + cbn. intros f' [= <-]. eapply split_feature_in; eassumption.
    + cbn [n_childs node_of n_feature]. intros c Hc. exists f.
      split; [reflexivity | now apply IHbuilt].
  - intros c [].
  - intros c [<- | Hc]; [exact IHbuilt | now apply IHbuilt0].
Qed.

Lemma NoDup_app_disjoint {A} (l1 l2 : list A) z :
  NoDup (l1 ++ l2) -> In z l1 -> In z l2 -> False.
Proof.
  induction l1 as [| a l1 IH]; cbn; intros Hnd H1 H2; [assumption |].
  inversion Hnd as [| ? ? Hna Hnd']; subst.
  destruct H1 as [-> | H1].
  - apply Hna. apply in_or_app. now right.
  - now apply IH.
Qed.

(** A feature has at most one gating feature when no feature is gated
    twice. *)
Lemma unique_gate (sc0 : hierarchy) a b g g' z :
  NoDup (flat_map gated_names (map snd sc0)) ->
  In (a, g) sc0 -> In (b, g') sc0 ->
  In z (gated_names g) -> In z (gated_names g') -> a = b.
Proof.
  induction sc0 as [| [k gg] sc0 IH]; cbn [map flat_map snd];
    intros Hnd Ha Hb Hz Hz'; [destruct Ha |].
  assert (Hrest : forall c h, In (c, h) sc0 -> In z (gated_names h) ->
                              In z (flat_map gated_names (map snd sc0))).
  { intros c h Hin Hzh. apply in_flat_map. exists h. split; [| exact Hzh].
    apply in_map_iff. now exists (c, h). }
  destruct Ha as [Ha | Ha], Hb as [Hb | Hb].
  - congruence.
  - injection Ha as <- <-. exfalso.
    eapply NoDup_app_disjoint; [exact Hnd | exact Hz | eapply Hrest; eassumption].
  - injection Hb as <- <-. exfalso.
    eapply NoDup_app_disjoint; [exact Hnd | exact Hz' | eapply Hrest; eassumption].
  - apply IH; auto. apply NoDup_app_remove_l in Hnd. exact Hnd.
Qed.

Lemma assoc_in {B} k (d : list (string * B)) v :
  assoc k d = Some v -> In (k, v) d.
Proof.
  induction d as [| [k' v'] d IH]; cbn; [discriminate |].
  destruct (String.eqb k k') eqn:E.
  - intros [= ->]. apply String.eqb_eq in E. subst. now left.
  - intros H. right. now apply IH.
Qed.

Lemma dict_remove_incl {B} k (d : list (string * B)) : incl (dict_remove k d) d.
Proof. intros x Hx. unfold dict_remove in Hx. now apply filter_In in Hx. Qed.

Lemma assoc_dict_remove {B} k (d : list (string * B)) :
  assoc k (dict_remove k d) = None.
Proof.
  induction d as [| [k' v'] d IH]; [reflexivity |].
  cbn. destruct (String.eqb k k') eqn:E; cbn; [exact IH |].
  now rewrite E.
Qed.

(** After a split on [f] the hierarchy has no entry for [f] left. *)
Lemma pure_unlock_pops f available sc d :
  snd (pure_unlock f available sc) = Some d -> assoc f d = None.
Proof.
  unfold pure_unlock. destruct sc as [d0 |]; [| discriminate].
  destruct (nonempty d0) eqn:Hne.
  - destruct (assoc f d0) eqn:Ea; cbn; intros [= <-];
      [apply assoc_dict_remove | exact Ea].
  - cbn. intros [= <-]. destruct d0; [reflexivity | discriminate].
Qed.

(** The eligible features and the remaining hierarchy: every eligible
    gated feature has its gate among the ancestors. *)
Definition gates_open (sc0 : hierarchy) (available : list string)
           (sc : option hierarchy) (ancestors : list string) : Prop :=
  (forall f gate g, In f available -> In (gate, g) sc0 ->
                    In f (gated_names g) -> In gate ancestors)
  /\ (forall d, sc = Some d -> incl d sc0).

Lemma unlock_gates_open sc0 f available sc ancestors :
  NoDup (flat_map gated_names (map snd sc0)) ->
  gates_open sc0 available sc ancestors ->
  gates_open sc0 (fst (pure_unlock f available sc))
             (snd (pure_unlock f available sc)) (f :: ancestors).
Proof.
  intros Hnd [Hav Hsc]. unfold pure_unlock.
  destruct sc as [d |].
  2:{ split; [| discriminate]. intros z gate g Hz Hg Hzg. right. eauto. }
  specialize (Hsc d eq_refl).
  destruct (nonempty d).
  2:{ split; [| intros ? [= <-]; exact Hsc].
      intros z gate g Hz Hg Hzg. right. eauto. }
  destruct (assoc f d) as [g0 |] eqn:Ea; cbn [fst snd].
  - split.
    + intros z gate g Hz Hg Hzg. apply in_app_or in Hz.
      destruct Hz as [Hz | Hz]; [right; eauto |]. left.
      apply assoc_in in Ea. apply Hsc in Ea.
      eapply unique_gate; eassumption.
    + intros d' [= <-]. intros x Hx. apply Hsc. eapply dict_remove_incl; eassumption.
  - split; [| intros ? [= <-]; exact Hsc].
    intros z gate g Hz Hg Hzg. right. eauto.
Qed.

Lemma built_gate_respected log2 self X y sc0 mask fv depth available sc node :
  NoDup (flat_map gated_names (map snd sc0)) ->
  built log2 self X y mask fv depth available sc node ->
  forall ancestors,
    gates_open sc0 available sc ancestors ->
    gate_respected sc0 ancestors node.
Proof.
  intros Hnd H.
  induction H using built_mut with
    (P0 := fun depth available sc l cs _ =>
             forall ancestors,
               gates_open sc0 available sc ancestors ->
               forall c, In c cs -> gate_respected sc0 ancestors c);
    intros ancestors Hopen.
  - constructor; [discriminate | intros c ? []].
  - constructor; [| intros c ? []].
    cbn. intros f gate g -> Hg Hfg. destruct Hopen as [Hav _].
    eapply Hav; [eapply split_feature_in; eassumption | eassumption ..].
  - constructor.
    + cbn. intros f' gate g [= <-] Hg Hfg. destruct Hopen as [Hav _].
      eapply Hav; [eapply split_feature_in; eassumption | eassumption ..].
    + cbn [n_childs node_of n_feature]. intros c f' Hc [= <-].
      eapply IHbuilt; [| exact Hc]. now apply unlock_gates_open.
  - intros c [].
  - intros c [<- | Hc]; [now apply IHbuilt | eapply IHbuilt0; eassumption].
Qed.

Lemma remove_first_spec x l l' :
  remove_first x l = Some l' ->
  In x l /\ incl l' l /\ (NoDup l -> NoDup l' /\ ~ In x l').
Proof.
  revert l'. induction l as [| z l IH]; cbn; intros l' H; [discriminate |].
  destruct (String.eqb z x) eqn:E.
  - apply String.eqb_eq in E. subst z. injection H as <-.
    split; [now left |]. split; [intros a Ha; now right |].
    intros Hnd. inversion Hnd; subst. now split.
  - destruct (remove_first x l) as [l1 |]; [| discriminate].
    injection H as <-. destruct (IH l1 eq_refl) as (Hin & Hincl & Hnd).
    split; [now right |]. split.
    + intros a [<- | Ha]; [now left | right; now apply Hincl].
    + intros Hnd'. inversion Hnd' as [| ? ? Hz Hl]; subst.
      destruct (Hnd Hl) as [Hnd1 Hx]. split.
      * constructor; [| exact Hnd1]. intros Hz'. apply Hz. now apply Hincl.
      * intros [-> | Hx']; [| now apply Hx].
        apply String.eqb_neq in E. now apply E.
Qed.

Lemma remove_all_spec names :
  forall l l',
    NoDup l -> remove_all names l = Some l' ->
    NoDup names /\ NoDup l' /\ incl l' l
    /\ (forall x, In x names -> In x l /\ ~ In x l').
Proof.
  induction names as [| x names IH]; cbn; intros l l' Hnd H.
  - injection H as <-.
    split; [constructor |]. split; [exact Hnd |].
    split; [apply incl_refl | contradiction].
  - destruct (remove_first x l) as [l1 |] eqn:E; [| discriminate].
    destruct (remove_first_spec _ _ E) as (Hin & Hincl & Hnd1).
    destruct (Hnd1 Hnd) as [Hndl1 Hx].
    destruct (IH l1 l' Hndl1 H) as (Hnn & Hnl' & Hincl' & Hall).
    split.
    { constructor; [| exact Hnn]. intros Hxn. apply Hx. now apply Hall. }
    split; [exact Hnl' |].
    split; [intros a Ha; now apply Hincl, Hincl' |].
    intros z [<- | Hz].
    + split; [exact Hin |]. intros Hx'. apply Hx. now apply Hincl'.
    + destruct (Hall z Hz) as [Hz1 Hz2]. split; [now apply Hincl | exact Hz2].
Qed.


(* ================================================================= *)
(** ** The claims about prediction *)

Lemma fitted_self_static log2 X y s v root mask fv depth available sc node :
  built log2 s X y mask fv depth available sc node ->
  built log2 (set_tree (Some root) (set_feature_importances v s))
        X y mask fv depth available sc node.
Proof. apply built_transport; reflexivity. Qed.

Lemma fit_ok log2 fuel X y cat rank num sc w w' :
  fit log2 fuel X y cat rank num sc w = (w', Ok tt) ->
  exists class_names available root v,
    check_fit_params X y cat rank num = Ok tt
    /\ py_sorted (unique y) = Ok class_names
    /\ remove_all (gated_all sc) (columns X) = Some available
    /\ built log2 (fitted_attrs X class_names cat rank num (w_self w))
             X y (all_true y) None 1 available sc root
    /\ w_self w' =
         set_tree (Some root)
           (set_feature_importances v
              (fitted_attrs X class_names cat rank num (w_self w))).
Proof.
  intros H. pose proof (fit_outcome log2 fuel X y cat rank num sc w) as Hp.
  unfold wp in Hp. rewrite H in Hp. exact Hp.
Qed.

Lemma fit_err log2 fuel X y cat rank num sc w w' e :
  fit log2 fuel X y cat rank num sc w = (w', Err e) ->
  tree (w_self w') = tree (w_self w)
  /\ (forall e', check_fit_params X y cat rank num = Err e' -> w' = w).
Proof.
  intros H. pose proof (fit_outcome log2 fuel X y cat rank num sc w) as Hp.
  unfold wp in Hp. rewrite H in Hp. exact Hp.
Qed.

(** The tree of a fitted classifier is the tree that the builder describes
    for the classifier itself. *)
Lemma fit_built log2 fuel X y cat rank num sc w w' :
  fit log2 fuel X y cat rank num sc w = (w', Ok tt) ->
  exists available root,
    tree (w_self w') = Some root
    /\ remove_all (gated_all sc) (columns X) = Some available
    /\ built log2 (w_self w') X y (all_true y) None 1 available sc root.
Proof.
  intros H. apply fit_ok in H.
  destruct H as (cn & available & root & v & _ & _ & Hrm & Hb & ->).
  exists available, root. repeat split; [exact Hrm |].
  now apply fitted_self_static.
Qed.

(** At a categorical or rank node the comparison of a branch descriptor,
    which is a list, with the value of the point fails for every child, so
    the prediction is the label of the node itself. *)
Lemma predict_branching_falls_back self node point f v :
  n_feature node = Some f ->
  is_branching self f = true ->
  point_get point f = Ok v ->
  (forall l, v <> PList l) ->
  Forall (fun c => n_feature_value c <> None) (n_childs node) ->
  predict_node self node point = not_none (n_label node).
Proof.
  intros Hf Hk Hv Hnl Hfv. rewrite predict_node_unfold, Hf, Hk.
  apply (search_none _ _ _ _ Hv).
  eapply Forall_impl; [| exact Hfv]. intros c Hc. cbn beta in Hc.
  unfold descriptor.
  destruct (n_feature_value c) as [l |]; [| now elim Hc].
  destruct v; try reflexivity. now elim (Hnl l0).
Qed.

(** C1 (code_bug). The classifier fitted on a categorical feature with the
    training values x and y has a child for the block [y], a leaf labelled
    b; the prediction for a row whose value is y does not enter it and
    returns a, the majority label of the root. *)
Theorem predict_seen_category_stays_at_root :
  let run := fit no_log2 10 X_category y_category
                 (Some [("F", [PStr "x"; PStr "y"])]) None None None
                 (world_of default_classifier) in
  snd run = Ok tt
  /\ (exists root child_x child_y,
         tree (w_self (fst run)) = Some root
         /\ n_feature root = Some "F"
         /\ n_label root = PStr "a"
         /\ n_childs root = [child_x; child_y]
         /\ n_feature_value child_y = Some [PStr "y"]
         /\ n_childs child_y = []
         /\ n_label child_y = PStr "b")
  /\ predict (w_self (fst run)) [("F", PStr "y")] = Ok (PStr "a").
Proof.
  cbv zeta. split; [vm_compute; reflexivity |]. split.
  - vm_compute. do 3 eexists. repeat split.
  - vm_compute. reflexivity.
Qed.

(** C10. In a fitted classifier, a point whose value for the split feature
    of a visited numerical node with children is missing makes the
    prediction fail with an assertion error. *)
Theorem predict_missing_numerical_value_fails
        log2 fuel X y cat rank num sc w w' point root node f :
  fit log2 fuel X y cat rank num sc w = (w', Ok tt) ->
  tree (w_self w') = Some root ->
  routes (w_self w') point root node ->
  n_feature node = Some f ->
  n_childs node <> [] ->
  is_numerical (w_self w') f = true ->
  point_get point f = Ok PNaN ->
  predict (w_self w') point = Err AssertionError.
Proof.
  intros Hfit Htree Hroutes Hf Hch Hnum Hnan.
  destruct (fit_built _ _ _ _ _ _ _ _ _ Hfit) as (available & root' & Ht & _ & Hb).
  rewrite Htree in Ht. injection Ht as <-.
  apply built_threshold_readable in Hb.
  pose proof (routes_every_node Hroutes Hb) as Hread.
  destruct (Hread f Hf Hch Hnum) as (t & c0 & c1 & Hcs & Hfv0 & _).
  unfold predict. rewrite Htree.
  eapply routes_error; [exact Hroutes |].
  eapply nan_at_numerical_node; eassumption.
Qed.

Lemma predict_missing_numerical_value_fails_witness :
  let run := fit no_log2 10 X_number y_number None None (Some ["N"]) None
                 (world_of default_classifier) in
  predict (w_self (fst run)) [("N", PNaN)] = Err AssertionError.
Proof.
  cbv zeta.
  eapply (@predict_missing_numerical_value_fails
            no_log2 10 X_number y_number None None (Some ["N"]) None
            (world_of default_classifier) _ [("N", PNaN)] _ _ "N").
  - vm_compute. reflexivity.
  - vm_compute. reflexivity.
  - apply routes_here.
  - reflexivity.
  - discriminate.
  - vm_compute. reflexivity.
  - reflexivity.
Defined.
